(** * generate_blogs.py: a shallow embedding and its checked properties

    The program turns a directory of Markdown posts into one HTML page.
    Its logic is a handful of [re] substitutions and [str] methods, so
    the embedding has three layers:

    - Python text: a [str] is a list of Unicode code points, with the
      [str] methods the program calls;
    - Python's [re]: a backtracking matcher over the pattern forms the
      program uses, with [re.sub], [re.search], [re.split], [re.match];
    - the program: [slugify], [compile_markdown], [extract_title], the
      body of [main], and a run of the module as shipped, [run_program].

    Unicode tables.  [is_space] is the complete table behind [\s] and
    [str.strip].  [is_alnum], [is_decimal], [lower_char] and [simple_lower]
    are exact on U+0000..U+00FF and on U+0130 and U+0307; every other code
    point is classed as caseless and neither alphanumeric nor decimal.
    Statements about all texts below either do not depend on the last
    four tables or say to which code points they are restricted. *)

From Stdlib Require Import Strings.String Strings.Ascii.
From Stdlib Require Import Numbers.DecimalString.
From Stdlib Require Import NArith Bool Arith Lia List.
From Stdlib Require Import Sorting.Permutation Sorting.Sorted.
Import ListNotations.

(* ================================================================= *)
(** ** Python text *)

Definition char := N.
Definition str := list char.

(** An ASCII literal as a [str]. *)
Definition str_of (s : string) : str :=
  map N_of_ascii (list_ascii_of_string s).

(** A Python literal body as a [str]: reads the escapes [\n], [\r] and
    [\\]; any other backslash is kept as it is, as in a raw string. *)
Fixpoint unescape (s : str) : str :=
  match s with
  | 92%N :: 110%N :: s' => 10%N :: unescape s'
  | 92%N :: 114%N :: s' => 13%N :: unescape s'
  | 92%N :: 92%N :: s' => 92%N :: unescape s'
  | c :: s' => c :: unescape s'
  | [] => []
  end.

Definition py (s : string) : str := unescape (str_of s).

Definition NL : char := 10%N.
Definition CR : char := 13%N.
Definition HASH : char := 35%N.
Definition HYPHEN : char := 45%N.

Definition in_range (lo hi c : N) : bool := (lo <=? c)%N && (c <=? hi)%N.

(** [str.isspace] on one code point; also [\s] of a [str] pattern. *)
Definition is_space (c : char) : bool :=
  in_range 9 13 c || in_range 28 32 c || (c =? 133)%N || (c =? 160)%N
  || (c =? 5760)%N || in_range 8192 8202 c || (c =? 8232)%N
  || (c =? 8233)%N || (c =? 8239)%N || (c =? 8287)%N || (c =? 12288)%N.

Definition is_ascii (c : char) : bool := (c <? 128)%N.

Definition ascii_upper (c : char) : bool := in_range 65 90 c.
Definition ascii_lower (c : char) : bool := in_range 97 122 c.
Definition ascii_digit (c : char) : bool := in_range 48 57 c.

(** [str.isalnum] on one code point. *)
Definition is_alnum (c : char) : bool :=
  ascii_digit c || ascii_upper c || ascii_lower c
  || (c =? 170)%N || (c =? 178)%N || (c =? 179)%N || (c =? 181)%N
  || (c =? 185)%N || (c =? 186)%N || in_range 188 190 c
  || in_range 192 214 c || in_range 216 246 c || in_range 248 255 c
  || (c =? 304)%N.

(** [\w] of a [str] pattern: alphanumeric or underscore. *)
Definition is_word (c : char) : bool := is_alnum c || (c =? 95)%N.

(** [\d] of a [str] pattern. *)
Definition is_decimal (c : char) : bool := ascii_digit c.

(** [str.lower] on one code point (U+0130 lowers to two code points). *)
Definition lower_char (c : char) : str :=
  if ascii_upper c then [(c + 32)%N]
  else if (in_range 192 222 c && negb (c =? 215)%N) then [(c + 32)%N]
  else if (c =? 304)%N then [105%N; 775%N]
  else [c].

(** The one-to-one lower-casing [re.IGNORECASE] compares with. *)
Definition simple_lower (c : char) : char :=
  if ascii_upper c then (c + 32)%N
  else if (in_range 192 222 c && negb (c =? 215)%N) then (c + 32)%N
  else if (c =? 304)%N then 105%N
  else c.

Definition str_lower (s : str) : str := flat_map lower_char s.

Fixpoint str_eqb (a b : str) : bool :=
  match a, b with
  | [], [] => true
  | x :: a', y :: b' => (x =? y)%N && str_eqb a' b'
  | _, _ => false
  end.

(** [s.startswith(p)]. *)
Fixpoint startswith (p s : str) : bool :=
  match p, s with
  | [], _ => true
  | x :: p', y :: s' => (x =? y)%N && startswith p' s'
  | _ :: _, [] => false
  end.

(** [needle in s]. *)
Fixpoint str_in (needle s : str) : bool :=
  startswith needle s ||
  match s with
  | [] => false
  | _ :: s' => str_in needle s'
  end.

(** [s.replace(old, new)] for a non-empty [old]: every occurrence, left to
    right, without overlap.  [skip] counts the characters of the
    occurrence just replaced that are still to be dropped. *)
Fixpoint replace_from (old new : str) (skip : nat) (s : str) : str :=
  match s with
  | [] => []
  | c :: s' =>
      match skip with
      | S n => replace_from old new n s'
      | O =>
          if startswith old s
          then new ++ replace_from old new (length old - 1) s'
          else c :: replace_from old new 0 s'
      end
  end.

(** [s.replace(old, new)]; an empty [old] puts [new] around every
    character. *)
Definition str_replace (old new s : str) : str :=
  match old with
  | [] => new ++ flat_map (fun c => c :: new) s
  | _ :: _ => replace_from old new 0 s
  end.

Fixpoint lstrip_by (p : char -> bool) (s : str) : str :=
  match s with
  | c :: s' => if p c then lstrip_by p s' else s
  | [] => []
  end.

Definition rstrip_by (p : char -> bool) (s : str) : str :=
  rev (lstrip_by p (rev s)).

Definition strip_by (p : char -> bool) (s : str) : str :=
  rstrip_by p (lstrip_by p s).

(** [s.strip()]. *)
Definition str_strip (s : str) : str := strip_by is_space s.

(** [s.strip(chars)]. *)
Definition str_strip_chars (chars s : str) : str :=
  strip_by (fun c => existsb (N.eqb c) chars) s.

(** [sep.join(parts)]. *)
Fixpoint str_join (sep : str) (parts : list str) : str :=
  match parts with
  | [] => []
  | [p] => p
  | p :: ps => p ++ sep ++ str_join sep ps
  end.

(** [html.escape(s)] with its default [quote=True]. *)
Definition escape_char (c : char) : str :=
  if (c =? 38)%N then str_of "&amp;"
  else if (c =? 60)%N then str_of "&lt;"
  else if (c =? 62)%N then str_of "&gt;"
  else if (c =? 34)%N then str_of "&quot;"
  else if (c =? 39)%N then str_of "&#x27;"
  else [c].

Definition html_escape (s : str) : str := flat_map escape_char s.

(** [str(n)] for a natural number. *)
Definition str_of_nat (n : nat) : str :=
  str_of (NilZero.string_of_uint (Nat.to_uint n)).

(* ================================================================= *)
(** ** Python's [re]

    Patterns are syntax trees; repetition is over a single character set,
    which is all the program's patterns use.  The matcher is the usual
    backtracking one in continuation-passing style: alternatives are
    tried in Python's order (a greedy star takes the longest run first, a
    lazy star the shortest), and the first success wins.  The matcher sees
    the character before the current position, for [^] and [\b], and the
    rest of the subject. *)

Module re.

Record flags := Flags { MULTILINE : bool; DOTALL : bool; IGNORECASE : bool }.

Definition NOFLAGS : flags := Flags false false false.
Definition M : flags := Flags true false false.
Definition S_ : flags := Flags false true false.
Definition I : flags := Flags false false true.

(** One member of a character set: a literal, [\s], [\S], [\w] or [\d]. *)
Inductive atom : Type :=
| Ch (c : char)
| Sp
| NotSp
| Wd
| Dg.

(** [.], a single atom, [[...]] and [[^...]]. *)
Inductive cset : Type :=
| Dot
| One (a : atom)
| OneOf (l : list atom)
| NoneOf (l : list atom).

Inductive regex : Type :=
| Eps
| Bol                        (* ^ *)
| Eol                        (* $ *)
| WordB                      (* \b *)
| Lit (l : str)              (* a run of literal characters *)
| Set_ (cs : cset)           (* one character of a set *)
| Star (cs : cset)           (* cs*  *)
| StarLazy (cs : cset)       (* cs*? *)
| Cat (r1 r2 : regex)
| Alt (r1 r2 : regex)        (* r1|r2 *)
| Grp (n : nat) (r : regex). (* the n-th capturing group *)

(** [cs+], [r?] and concatenation of a list. *)
Definition Plus (cs : cset) : regex := Cat (Set_ cs) (Star cs).
Definition Opt (r : regex) : regex := Alt r Eps.

Fixpoint seq (rs : list regex) : regex :=
  match rs with
  | [] => Eps
  | [r] => r
  | r :: rs' => Cat r (seq rs')
  end.

Fixpoint alts (rs : list regex) : regex :=
  match rs with
  | [] => Eps
  | [r] => r
  | r :: rs' => Alt r (alts rs')
  end.

Definition captures := list (nat * str).

(** [m.group(n)] for n >= 1: [None] when the group took no part. *)
Fixpoint group (caps : captures) (n : nat) : option str :=
  match caps with
  | [] => None
  | (k, v) :: caps' => if Nat.eqb k n then Some v else group caps' n
  end.

Definition group_or_empty (caps : captures) (n : nat) : str :=
  match group caps n with
  | Some v => v
  | None => []
  end.

Section Matcher.

Variable fl : flags.

Definition chr_eq (x c : char) : bool :=
  if IGNORECASE fl then (simple_lower x =? simple_lower c)%N else (x =? c)%N.

Definition atom_match (a : atom) (c : char) : bool :=
  match a with
  | Ch x => chr_eq x c
  | Sp => is_space c
  | NotSp => negb (is_space c)
  | Wd => is_word c
  | Dg => is_decimal c
  end.

Definition cset_match (cs : cset) (c : char) : bool :=
  match cs with
  | Dot => DOTALL fl || negb (c =? NL)%N
  | One a => atom_match a c
  | OneOf l => existsb (fun a => atom_match a c) l
  | NoneOf l => negb (existsb (fun a => atom_match a c) l)
  end.

Definition at_bol (prev : option char) : bool :=
  match prev with
  | None => true
  | Some c => MULTILINE fl && (c =? NL)%N
  end.

Definition at_eol (s : str) : bool :=
  match s with
  | [] => true
  | c :: s' =>
      (c =? NL)%N && (MULTILINE fl || match s' with [] => true | _ => false end)
  end.

Definition word_before (prev : option char) : bool :=
  match prev with
  | None => false
  | Some c => is_word c
  end.

Definition word_after (s : str) : bool :=
  match s with
  | [] => false
  | c :: _ => is_word c
  end.

Definition at_wordb (prev : option char) (s : str) : bool :=
  xorb (word_before prev) (word_after s).

(** The literal run [l] at the head of [s]: the last character read and
    what follows. *)
Fixpoint lit_match (l : str) (prev : option char) (s : str)
  : option (option char * str) :=
  match l with
  | [] => Some (prev, s)
  | x :: l' =>
      match s with
      | c :: s' => if chr_eq x c then lit_match l' (Some c) s' else None
      | [] => None
      end
  end.

Section Cont.

Variable R : Type.

Fixpoint star_greedy (cs : cset) (k : option char -> str -> option R)
  (prev : option char) (s : str) : option R :=
  match s with
  | c :: s' =>
      if cset_match cs c
      then match star_greedy cs k (Some c) s' with
           | Some r => Some r
           | None => k prev s
           end
      else k prev s
  | [] => k prev s
  end.

Fixpoint star_lazy (cs : cset) (k : option char -> str -> option R)
  (prev : option char) (s : str) : option R :=
  match k prev s with
  | Some r => Some r
  | None =>
      match s with
      | c :: s' => if cset_match cs c then star_lazy cs k (Some c) s' else None
      | [] => None
      end
  end.

Fixpoint run (r : regex) (prev : option char) (s : str) (caps : captures)
  (k : option char -> str -> captures -> option R) : option R :=
  match r with
  | Eps => k prev s caps
  | Bol => if at_bol prev then k prev s caps else None
  | Eol => if at_eol s then k prev s caps else None
  | WordB => if at_wordb prev s then k prev s caps else None
  | Lit l =>
      match lit_match l prev s with
      | Some (prev', s') => k prev' s' caps
      | None => None
      end
  | Set_ cs =>
      match s with
      | c :: s' => if cset_match cs c then k (Some c) s' caps else None
      | [] => None
      end
  | Star cs => star_greedy cs (fun prev' s' => k prev' s' caps) prev s
  | StarLazy cs => star_lazy cs (fun prev' s' => k prev' s' caps) prev s
  | Cat r1 r2 =>
      run r1 prev s caps (fun prev' s' caps' => run r2 prev' s' caps' k)
  | Alt r1 r2 =>
      match run r1 prev s caps k with
      | Some x => Some x
      | None => run r2 prev s caps k
      end
  | Grp n r0 =>
      run r0 prev s caps
        (fun prev' s' caps' =>
           k prev' s' ((n, firstn (length s - length s') s) :: caps'))
  end.

End Cont.

Arguments star_greedy {R} cs k prev s.
Arguments star_lazy {R} cs k prev s.
Arguments run {R} r prev s caps k.

(** The match of [r] that starts at the current position, if any: its
    groups and the rest of the subject after it. *)
Definition match_here (r : regex) (prev : option char) (s : str)
  : option (captures * str) :=
  run r prev s [] (fun _ s' caps => Some (caps, s')).

(** A match object: the text before the match, the match ([group(0)]),
    the groups and the text after. *)
Record match_obj := MatchObj {
  m_before : str;
  m_text : str;
  m_groups : captures;
  m_after : str
}.

(** [re.match(r, s)]. *)
Definition match_ (r : regex) (s : str) : option match_obj :=
  match match_here r None s with
  | Some (caps, rest) =>
      Some (MatchObj [] (firstn (length s - length rest) s) caps rest)
  | None => None
  end.

Fixpoint search_from (r : regex) (prev : option char) (before : str)
  (s : str) : option match_obj :=
  match match_here r prev s with
  | Some (caps, rest) =>
      Some (MatchObj (rev before) (firstn (length s - length rest) s) caps rest)
  | None =>
      match s with
      | [] => None
      | c :: s' => search_from r (Some c) (c :: before) s'
      end
  end.

(** [re.search(r, s)]: the leftmost match. *)
Definition search (r : regex) (s : str) : option match_obj :=
  search_from r None [] s.

(** [re.sub(r, repl, s)] with [repl] a function of the groups.  [skip]
    counts the characters of the last match still to be passed over.
    Every pattern of the program consumes at least one character; after an
    empty match the next character is copied. *)
Fixpoint sub_from (r : regex) (repl : captures -> str) (prev : option char)
  (skip : nat) (s : str) : str :=
  match s with
  | [] =>
      match skip with
      | O =>
          match match_here r prev [] with
          | Some (caps, _) => repl caps
          | None => []
          end
      | S _ => []
      end
  | c :: s' =>
      match skip with
      | S n => sub_from r repl (Some c) n s'
      | O =>
          match match_here r prev s with
          | Some (caps, rest) =>
              match length s - length rest with
              | O => repl caps ++ c :: sub_from r repl (Some c) 0 s'
              | S n => repl caps ++ sub_from r repl (Some c) n s'
              end
          | None => c :: sub_from r repl (Some c) 0 s'
          end
      end
  end.

Definition sub (r : regex) (repl : captures -> str) (s : str) : str :=
  sub_from r repl None 0 s.

(** [re.sub(r, repl, s, count=1)]. *)
Definition sub_first (r : regex) (repl : captures -> str) (s : str) : str :=
  match search r s with
  | Some mo => m_before mo ++ repl (m_groups mo) ++ m_after mo
  | None => s
  end.

(** [re.split(r, s)] for a pattern without groups that consumes at least
    one character: the pieces between the matches.  [piece] is the
    current piece, reversed. *)
Fixpoint split_from (r : regex) (prev : option char) (skip : nat)
  (piece : str) (s : str) : list str :=
  match s with
  | [] => [rev piece]
  | c :: s' =>
      match skip with
      | S n => split_from r (Some c) n piece s'
      | O =>
          match match_here r prev s with
          | Some (_, rest) =>
              match length s - length rest with
              | O => split_from r (Some c) 0 (c :: piece) s'
              | S n => rev piece :: split_from r (Some c) n [] s'
              end
          | None => split_from r (Some c) 0 (c :: piece) s'
          end
      end
  end.

Definition split (r : regex) (s : str) : list str :=
  split_from r None 0 [] s.

End Matcher.

Arguments star_greedy fl {R} cs k prev s.
Arguments star_lazy fl {R} cs k prev s.
Arguments run fl {R} r prev s caps k.

(** A replacement template such as [<h4>\1</h4>]. *)
Inductive titem : Type :=
| TLit (s : str)
| TGrp (n : nat).

Definition expand (tpl : list titem) (caps : captures) : str :=
  flat_map (fun it => match it with
                      | TLit s => s
                      | TGrp n => group_or_empty caps n
                      end) tpl.

End re.

(* ================================================================= *)
(** ** The program: [slugify], [compile_markdown], [extract_title] *)

(** The pattern "[^\w\-]+" *)
Definition SLUG_RE : re.regex := re.Plus (re.NoneOf [re.Wd; re.Ch HYPHEN]).

Definition slugify (name : str) : str :=
  let s :=
    str_lower
      (str_strip_chars (str_of "-")
         (re.sub re.NOFLAGS SLUG_RE (fun _ => str_of "-") name)) in
  match s with
  | [] => str_of "post"
  | _ :: _ => s
  end.

(** [md.replace("\r\n", "\n").replace("\r", "\n")] *)
Definition normalize (md : str) : str :=
  str_replace [CR] [NL] (str_replace [CR; NL] [NL] md).

(** The fence pattern with [re.DOTALL]: three backticks, group 1 "\w*",
    "\n", the lazy group 2 ".*?", then "\n```" *)
Definition FENCE_RE : re.regex :=
  re.seq [re.Lit (str_of "```"); re.Grp 1 (re.Star (re.One re.Wd));
          re.Lit [NL]; re.Grp 2 (re.StarLazy re.Dot);
          re.Lit (NL :: str_of "```")].

Definition repl_code (m : re.captures) : str :=
  let lang := str_strip (re.group_or_empty m 1) in
  let code := html_escape (re.group_or_empty m 2) in
  match lang with
  | _ :: _ =>
      str_of "<pre><code class='language-" ++ html_escape lang
        ++ str_of "'>" ++ code ++ str_of "</code></pre>"
  | [] => str_of "<pre><code>" ++ code ++ str_of "</code></pre>"
  end.

Definition fence_step (s : str) : str := re.sub re.S_ FENCE_RE repl_code s.

(** The patterns "^###\s*(.+)$", "^##\s*(.+)$" and "^#\s*(.+)$" with
    [re.MULTILINE], and their replacements "<h4>\1</h4>" and so on *)
Definition heading_re (hashes : string) : re.regex :=
  re.seq [re.Bol; re.Lit (str_of hashes); re.Star (re.One re.Sp);
          re.Grp 1 (re.Plus re.Dot); re.Eol].

Definition heading_repl (tag : string) : re.captures -> str :=
  re.expand [re.TLit (str_of "<" ++ str_of tag ++ str_of ">"); re.TGrp 1;
             re.TLit (str_of "</" ++ str_of tag ++ str_of ">")].

Definition heading_sub (hashes tag : string) (s : str) : str :=
  re.sub re.M (heading_re hashes) (heading_repl tag) s.

Definition heading_step (s : str) : str :=
  heading_sub "#" "h2" (heading_sub "##" "h3" (heading_sub "###" "h4" s)).

(** The pattern "(https?://[^\s<]+)", replaced by "<a href='\1'>\1</a>" *)
Definition URL_RE : re.regex :=
  re.Grp 1
    (re.seq [re.Lit (str_of "http"); re.Opt (re.Lit (str_of "s"));
             re.Lit (str_of "://");
             re.Plus (re.NoneOf [re.Sp; re.Ch 60%N])]).

Definition autolink_step (s : str) : str :=
  re.sub re.NOFLAGS URL_RE
    (re.expand [re.TLit (str_of "<a href='"); re.TGrp 1; re.TLit (str_of "'>");
                re.TGrp 1; re.TLit (str_of "</a>")]) s.

(** The pattern "\n\s*\n" *)
Definition BLANK_RE : re.regex :=
  re.seq [re.Lit [NL]; re.Star (re.One re.Sp); re.Lit [NL]].

(** The pattern "^<(h\d|pre|ul|ol|blockquote|p|div)" with [re.I] *)
Definition BLOCK_RE : re.regex :=
  re.seq [re.Bol; re.Lit (str_of "<");
          re.Grp 1
            (re.alts [re.Cat (re.Lit (str_of "h")) (re.Set_ (re.One re.Dg));
                      re.Lit (str_of "pre"); re.Lit (str_of "ul");
                      re.Lit (str_of "ol"); re.Lit (str_of "blockquote");
                      re.Lit (str_of "p"); re.Lit (str_of "div")])].

(** The body of the loop over [parts]: [out] is the list built so far. *)
Fixpoint blocks_loop (parts : list str) (out : list str) : list str :=
  match parts with
  | [] => out
  | p :: parts' =>
      let p := str_strip p in
      match p with
      | [] => blocks_loop parts' out
      | _ :: _ =>
          match re.match_ re.I BLOCK_RE p with
          | Some _ => blocks_loop parts' (out ++ [p])
          | None =>
              let p := str_replace [NL] (str_of "<br>") p in
              blocks_loop parts'
                (out ++ [str_of "<p>" ++ p ++ str_of "</p>"])
          end
      end
  end.

Definition paragraph_step (s : str) : str :=
  str_join [NL; NL] (blocks_loop (re.split re.NOFLAGS BLANK_RE s) []).

Definition compile_markdown (md : str) : str :=
  paragraph_step (autolink_step (heading_step (fence_step (normalize md)))).

(** The patterns "^#\s+(.+)$" and "^##\s+(.+)$" with [re.MULTILINE] *)
Definition title_re (hashes : string) : re.regex :=
  re.seq [re.Bol; re.Lit (str_of hashes); re.Plus (re.One re.Sp);
          re.Grp 1 (re.Plus re.Dot); re.Eol].

Definition extract_title (md fallback : str) : str :=
  match re.search re.M (title_re "#") md with
  | Some m => str_strip (re.group_or_empty (re.m_groups m) 1)
  | None =>
      match re.search re.M (title_re "##") md with
      | Some m => str_strip (re.group_or_empty (re.m_groups m) 1)
      | None => fallback
      end
  end.

(* ================================================================= *)
(** ** The program: [main]

    [main] reads the file system, prints, may exit and writes one file.
    A [world] is what it reads; an [io] is what it has produced so far.
    [sys.exit] ends the run with its status, so a computation either
    returns, exits, or stops where the model ends ([Stuck], see
    [insert_feed] and the last statement of [main]).  The three paths are
    taken as they print.  The module as shipped does not compile, see
    [run_program]: [main] is the body of the function as it is written,
    [run_program] is what a run of the file does. *)

(** An entry of the posts directory, in the order [iterdir] yields them. *)
Record entry := Entry {
  e_name : str;       (* p.name *)
  e_is_file : bool;   (* p.is_file() *)
  e_mtime : N;        (* p.stat().st_mtime *)
  e_text : str        (* read_text_safe(p) *)
}.

Record world := World {
  blogs_path : str;                   (* str(BLOGS_DIR) *)
  template_path : str;                (* str(TEMPLATE) *)
  out_path : str;                     (* str(OUT) *)
  blogs_dir : option (list entry);    (* None: BLOGS_DIR does not exist *)
  template : option str               (* None: TEMPLATE does not exist *)
}.

Record io := IO {
  stdout : list str;      (* the lines printed, oldest first *)
  stderr : list str;
  written : list str      (* the texts written to OUT, oldest first *)
}.

Inductive result (A : Type) : Type :=
| Ret (a : A)
| Exit (status : nat)
| Stuck.

Arguments Ret {A} a.
Arguments Exit {A} status.
Arguments Stuck {A}.

Definition prog (A : Type) : Type := io -> result A * io.

Definition ret {A} (a : A) : prog A := fun st => (Ret a, st).

Definition bind {A B} (c : prog A) (f : A -> prog B) : prog B :=
  fun st =>
    match c st with
    | (Ret a, st') => f a st'
    | (Exit n, st') => (Exit n, st')
    | (Stuck, st') => (Stuck, st')
    end.

Notation "x <- c ;; k" := (bind c (fun x => k))
  (at level 61, c at next level, right associativity).
Notation "c ;;; k" := (bind c (fun _ => k))
  (at level 61, right associativity).

Definition print (line : str) : prog unit :=
  fun st => (Ret tt, IO (stdout st ++ [line]) (stderr st) (written st)).

Definition eprint (line : str) : prog unit :=
  fun st => (Ret tt, IO (stdout st) (stderr st ++ [line]) (written st)).

Definition sys_exit {A} (status : nat) : prog A := fun st => (Exit status, st).

Definition stuck {A} : prog A := fun st => (Stuck, st).

Definition write_out (text : str) : prog unit :=
  fun st => (Ret tt, IO (stdout st) (stderr st) (written st ++ [text])).

Fixpoint for_each {A} (l : list A) (body : A -> prog unit) : prog unit :=
  match l with
  | [] => ret tt
  | x :: l' => body x ;;; for_each l' body
  end.

(** The index of the last "." of a name, when it is neither its first nor
    its last character: where [pathlib] cuts the suffix. *)
Fixpoint last_dot (s : str) (i : nat) (found : option nat) : option nat :=
  match s with
  | [] => found
  | c :: s' =>
      last_dot s' (S i)
        (if (c =? 46)%N
         then match i, s' with
              | O, _ => found
              | _, [] => None
              | _, _ => Some i
              end
         else found)
  end.

(** [p.suffix] and [p.stem] *)
Definition suffix (name : str) : str :=
  match last_dot name 0 None with
  | Some i => skipn i name
  | None => []
  end.

Definition stem (name : str) : str :=
  match last_dot name 0 None with
  | Some i => firstn i name
  | None => name
  end.

(** [list.sort] and [sorted] are stable; [insert_sorted before] puts [x] in
    front of the sorted [l], after the elements that go [before] it. *)
Fixpoint insert_sorted {A} (before : A -> A -> bool) (x : A) (l : list A)
  : list A :=
  match l with
  | [] => [x]
  | y :: l' => if before y x then y :: insert_sorted before x l' else x :: l
  end.

Definition stable_sort {A} (before : A -> A -> bool) (l : list A) : list A :=
  fold_right (insert_sorted before) [] l.

(** [a < b] on [str]: by code points, a proper prefix first. *)
Fixpoint str_ltb (a b : str) : bool :=
  match a, b with
  | _, [] => false
  | [], _ :: _ => true
  | x :: a', y :: b' => (x <? y)%N || ((x =? y)%N && str_ltb a' b')
  end.

(** [read_text_safe(p)]: the text of a file, already decoded. *)
Definition read_text_safe (p : entry) : str := e_text p.

(** The eligible posts of a directory listing. *)
Definition is_post (p : entry) : bool :=
  e_is_file p && str_eqb (str_lower (suffix (e_name p))) (str_of ".md")
  && negb (startswith (str_of "_") (e_name p)).

Definition QUOTE : str := [34%N].
Definition BACKSLASH : char := 92%N.

(** The feed when there is no post. *)
Definition NO_POSTS : str :=
  str_of "<p class=" ++ QUOTE ++ str_of "translatable" ++ QUOTE
  ++ str_of " data-en=" ++ QUOTE ++ str_of "No posts yet." ++ QUOTE
  ++ str_of " data-de=" ++ QUOTE ++ str_of "Noch keine Beitr" ++ [228%N]
  ++ str_of "ge." ++ QUOTE ++ str_of ">No posts yet.</p>".

Definition fragment_of (anchor compiled : str) : str :=
  str_of "<a id='" ++ anchor ++ str_of "'></a>" ++ [NL]
  ++ str_of "<article class='post' id='" ++ anchor ++ str_of "'>" ++ [NL]
  ++ compiled ++ [NL] ++ str_of "</article>".

Definition contents_entry (anchor title : str) : str :=
  str_of "<a href='#" ++ anchor ++ str_of "'>- " ++ html_escape title
  ++ str_of "</a>".

(** The loop over the posts: the fragments and the contents entries. *)
Fixpoint collect (files : list entry) (posts_fragments contents : list str)
  : prog (list str * list str) :=
  match files with
  | [] => ret (posts_fragments, contents)
  | p :: files' =>
      let raw := read_text_safe p in
      let title := extract_title raw (stem (e_name p)) in
      let compiled := compile_markdown raw in
      let anchor := slugify (stem (e_name p)) in
      print (str_of "Added: " ++ e_name p ++ str_of " -> anchor #" ++ anchor) ;;;
      collect files' (posts_fragments ++ [fragment_of anchor compiled])
        (contents ++ [contents_entry anchor title])
  end.

Definition posts_block_of (posts_fragments : list str) : str :=
  match posts_fragments with
  | [] => NO_POSTS
  | _ :: _ => str_join (NL :: str_of "<hr>" ++ [NL]) posts_fragments
  end.

Definition BLOGS_MARK : str := str_of "###BLOGS###".
Definition CONTENTS_MARK : str := str_of "###BLOG-CONTENTS###".
Definition BLOGS_START : str := str_of "<!-- BLOGS-START -->".
Definition BLOGS_END : str := str_of "<!-- BLOGS-END -->".

(** The pattern "<!-- BLOGS-START -->[\s\S]*?<!-- BLOGS-END -->" *)
Definition REGION_RE : re.regex :=
  re.seq [re.Lit BLOGS_START; re.StarLazy (re.OneOf [re.Sp; re.NotSp]);
          re.Lit BLOGS_END].

(** The pattern "(<nav\b[^>]*>)([\s\S]*?)(</nav>)" *)
Definition NAV_RE : re.regex :=
  re.seq [re.Grp 1 (re.seq [re.Lit (str_of "<nav"); re.WordB;
                            re.Star (re.NoneOf [re.Ch 62%N]);
                            re.Lit (str_of ">")]);
          re.Grp 2 (re.StarLazy (re.OneOf [re.Sp; re.NotSp]));
          re.Grp 3 (re.Lit (str_of "</nav>"))].

(** Where the feed goes.  In the region branch the replacement is handed
    to [re.sub] as a string, which reads backslashes in it as escapes; the
    model covers a feed without backslash and returns [None] otherwise. *)
Definition insert_feed (tpl posts_block : str) : option str :=
  if str_in BLOGS_MARK tpl
  then Some (str_replace BLOGS_MARK posts_block tpl)
  else if str_in BLOGS_START tpl && str_in BLOGS_END tpl
  then
    if existsb (N.eqb 92%N) posts_block then None
    else
      Some (re.sub_first re.NOFLAGS REGION_RE
              (fun _ => BLOGS_START ++ [NL] ++ posts_block ++ [NL] ++ BLOGS_END)
              tpl)
  else if str_in (str_of "</main>") tpl
  then Some (str_replace (str_of "</main>")
               (posts_block ++ [NL] ++ str_of "</main>") tpl)
  else Some (tpl ++ [NL; NL] ++ posts_block).

(** Where the contents list goes, in the document that has the feed. *)
Definition insert_contents (out_html contents_block : str) : str :=
  if str_in CONTENTS_MARK out_html
  then str_replace CONTENTS_MARK contents_block out_html
  else if str_in (str_of "<nav") out_html && str_in (str_of "</nav>") out_html
  then
    re.sub_first re.NOFLAGS NAV_RE
      (fun m => re.group_or_empty m 1 ++ [NL] ++ contents_block ++ [NL]
                ++ re.group_or_empty m 3)
      out_html
  else contents_block ++ [NL; NL] ++ out_html.

(** The two insertions, one after the other. *)
Definition merge (tpl posts_block contents_block : str) : option str :=
  match insert_feed tpl posts_block with
  | Some out_html => Some (insert_contents out_html contents_block)
  | None => None
  end.

(** Line 117 of the module, the last statement of [main], as it stands
    in the source: a backslash comes before each quote of its two pattern
    literals. *)
Definition LINE_117 : str :=
  str_of "        print(" ++ QUOTE ++ str_of "Generated anchors:" ++ QUOTE
  ++ str_of ", " ++ QUOTE ++ str_of ", " ++ QUOTE
  ++ str_of ".join(re.sub(r" ++ [BACKSLASH] ++ QUOTE
  ++ str_of "^.*id='([^']+)'.*$" ++ [BACKSLASH] ++ QUOTE
  ++ str_of ", r" ++ [BACKSLASH] ++ QUOTE
  ++ [BACKSLASH; BACKSLASH] ++ str_of "1" ++ [BACKSLASH] ++ QUOTE
  ++ str_of ", frag) for frag in posts_fragments))".

(** Python's tokenizer on one line that begins outside any string
    literal (the module has no literal of more than one line).  Outside a
    literal, a "#" opens a comment, a quote opens a literal (a prefix
    such as "r" is a name before it), and a backslash is a line
    continuation, which must be the last character of the line: any
    other is "unexpected character after line continuation character",
    a [SyntaxError].  Inside a literal a backslash takes the next
    character with it, in a raw literal too, and the opening quote
    closes.  The result is the column, from 0, of the first backslash
    that is refused. *)
Inductive lex_mode : Type :=
| Code
| Literal (quote : char).

Fixpoint stray_backslash (m : lex_mode) (col : nat) (s : str) : option nat :=
  match s with
  | [] => None
  | c :: s' =>
      match m with
      | Code =>
          if (c =? HASH)%N then None
          else if (c =? BACKSLASH)%N
          then match s' with
               | [] => None
               | _ :: _ => Some col
               end
          else if (c =? 34)%N || (c =? 39)%N
          then stray_backslash (Literal c) (S col) s'
          else stray_backslash Code (S col) s'
      | Literal q =>
          if (c =? BACKSLASH)%N
          then match s' with
               | [] => None
               | _ :: s'' => stray_backslash (Literal q) (S (S col)) s''
               end
          else if (c =? q)%N then stray_backslash Code (S col) s'
          else stray_backslash (Literal q) (S col) s'
      end
  end.

(** The body of [main].  Its last statement, on lines 116 and 117, is
    not Python (see [LINE_117]): the model has no behaviour for it and
    stops there, [Stuck], when there are posts to list. *)
Definition main (w : world) : prog unit :=
  print (str_of "Running generate_blogs.py") ;;;
  match blogs_dir w with
  | None =>
      eprint (str_of "ERROR: blogs directory not found: " ++ blogs_path w) ;;;
      sys_exit 1
  | Some entries =>
      let md_files := filter is_post entries in
      match md_files with
      | [] =>
          print (str_of "No markdown files found in blogs/ " ++ [8212%N]
                 ++ str_of " will write template with no posts.")
      | _ :: _ =>
          print (str_of "Found markdown files:") ;;;
          for_each
            (stable_sort (fun p q => str_ltb (e_name p) (e_name q))
               md_files)
            (fun p => print (str_of " - " ++ e_name p))
      end ;;;
      let md_files :=
        stable_sort (fun p q => (e_mtime q <? e_mtime p)%N) md_files in
      pc <- collect md_files [] [] ;;
      let posts_fragments := fst pc in
      let contents := snd pc in
      let posts_block := posts_block_of posts_fragments in
      let contents_block := str_join (str_of "<br>") contents in
      match template w with
      | None =>
          eprint (str_of "ERROR: Template file not found: " ++ template_path w) ;;;
          sys_exit 1
      | Some tpl =>
          match merge tpl posts_block contents_block with
          | None => stuck
          | Some out_html =>
              write_out out_html ;;;
              print (str_of "Wrote " ++ out_path w ++ str_of " with "
                     ++ str_of_nat (length posts_fragments) ++ str_of " posts.") ;;;
              match posts_fragments with
              | [] => ret tt
              | _ :: _ => stuck
              end
          end
      end
  end.

(** A call of [main] from nothing printed and nothing written. *)
Definition run_main (w : world) : result unit * io := main w (IO [] [] []).

(** A run of the program.  Python compiles the whole module before it
    runs any statement of it, and the tokenizer refuses line 117: the
    run ends there, with the interpreter's report of the syntax error on
    standard error and exit status 1, and [main] is never entered. *)
Inductive outcome : Type :=
| NotCompiled (line col : nat)
| Ran (r : result unit * io).

Definition run_program (w : world) : outcome :=
  match stray_backslash Code 0 LINE_117 with
  | Some col => NotCompiled 117 col
  | None => Ran (run_main w)
  end.

(* ================================================================= *)
(** ** Notions the statements use *)

(** The number of positions of [s] at which [needle] starts. *)
Fixpoint occurrences (needle s : str) : nat :=
  (if startswith needle s then 1 else 0) +
  match s with
  | [] => 0
  | _ :: s' => occurrences needle s'
  end.

(** [s] with its first occurrence of [old], if any, replaced by [new]:
    what replacing "the first occurrence only" means. *)
Fixpoint replace_first (old new s : str) : str :=
  if startswith old s then new ++ skipn (length old) s
  else match s with
       | [] => []
       | c :: s' => c :: replace_first old new s'
       end.

(** A document with [x] where the feed goes and [y] where the contents
    go, in either order. *)
Definition two_slots (feed_first : bool) (a b c x y : str) : str :=
  if feed_first then a ++ x ++ b ++ y ++ c else a ++ y ++ b ++ x ++ c.

(** A computation that returns, having at most printed to standard
    output. *)
Definition prints_only {A} (c : prog A) : Prop :=
  forall st, exists a out, c st = (Ret a, IO out (stderr st) (written st)).

(** The character before the position reached after reading [l]. *)
Fixpoint prev_after (prev : option char) (l : str) : option char :=
  match l with
  | [] => prev
  | c :: l' => prev_after (Some c) l'
  end.

(** [needle] starts at some position of [a] in the text [a ++ rest]. *)
Fixpoint starts_within (needle a rest : str) : bool :=
  match a with
  | [] => false
  | _ :: a' => startswith needle (a ++ rest) || starts_within needle a' rest
  end.

(** [s.split("\n")]: the lines of a text. *)
Fixpoint lines_of (s : str) : list str :=
  match s with
  | [] => [[]]
  | c :: s' =>
      if (c =? NL)%N then [] :: lines_of s'
      else match lines_of s' with
           | l :: ls => (c :: l) :: ls
           | [] => [[c]]
           end
  end.

Definition no_newline (l : str) : bool := forallb (fun c => negb (c =? NL)%N) l.

(** What may follow a line: the end of the text or a line feed. *)
Definition line_end (tail : str) : bool :=
  match tail with
  | [] => true
  | c :: _ => (c =? NL)%N
  end.

(** The first line on which [hit] finds something. *)
Fixpoint first_hit {A} (hit : str -> option A) (ls : list str) : option A :=
  match ls with
  | [] => None
  | l :: ls' =>
      match hit l with
      | Some a => Some a
      | None => first_hit hit ls'
      end
  end.

(** The text of a heading line: what follows its first [n] characters and
    the whitespace after them. *)
Definition heading_text (n : nat) (l : str) : str :=
  lstrip_by is_space (skipn n l).

Definition element (tag : string) (body : str) : str :=
  str_of "<" ++ str_of tag ++ str_of ">" ++ body
  ++ str_of "</" ++ str_of tag ++ str_of ">".

(** What one heading substitution makes of a line. *)
Definition heading_conv (hashes tag : string) (l : str) : str :=
  if startswith (str_of hashes) l
  then element tag (heading_text (String.length hashes) l)
  else l.

(** What the heading step makes of a line. *)
Definition heading_line (l : str) : str :=
  if startswith (str_of "###") l then element "h4" (heading_text 3 l)
  else if startswith (str_of "##") l then element "h3" (heading_text 2 l)
  else if startswith (str_of "#") l then element "h2" (heading_text 1 l)
  else l.

Definition is_empty (s : str) : bool :=
  match s with
  | [] => true
  | _ :: _ => false
  end.

(** The line is [hashes] followed by nothing but whitespace. *)
Definition bare (hashes : string) (l : str) : bool :=
  startswith (str_of hashes) l
  && is_empty (heading_text (String.length hashes) l).

(** A line of one, two or three "#" followed by nothing but whitespace. *)
Definition bare_heading (l : str) : bool :=
  bare "#" l || bare "##" l || bare "###" l.

(** The heading text of a line that begins with [hashes] followed by
    whitespace and text, as the specification words a heading line. *)
Definition title_on_line (hashes : string) (l : str) : option str :=
  if startswith (str_of hashes) l
  then match skipn (String.length hashes) l with
       | c :: _ =>
           if is_space c
           then match heading_text (String.length hashes) l with
                | [] => None
                | t => Some t
                end
           else None
       | [] => None
       end
  else None.

(** The title as the specification words it: the trimmed text of the
    first level-1 heading line, else of the first level-2 heading line,
    else the fallback. *)
Definition title_spec (md fallback : str) : str :=
  match first_hit (title_on_line "#") (lines_of md) with
  | Some t => str_strip t
  | None =>
      match first_hit (title_on_line "##") (lines_of md) with
      | Some t => str_strip t
      | None => fallback
      end
  end.


(** The opening fence without its tag, and the closing fence with the
    line feed before it. *)
Definition FENCE : str := str_of "```".
Definition FENCE_CLOSE : str := NL :: str_of "```".

(** The container of a code block: the class is there only with a tag. *)
Definition code_container (tag body : str) : str :=
  str_of "<pre><code"
  ++ (if is_empty tag then []
      else str_of " class='language-" ++ html_escape tag ++ str_of "'")
  ++ str_of ">" ++ html_escape body ++ str_of "</code></pre>".

(** Patterns that look neither behind ("^") nor around ("\b"). *)
Fixpoint no_lookbehind (r : re.regex) : bool :=
  match r with
  | re.Bol | re.WordB => false
  | re.Cat r1 r2 | re.Alt r1 r2 => no_lookbehind r1 && no_lookbehind r2
  | re.Grp _ r0 => no_lookbehind r0
  | _ => true
  end.

Definition NAV_OPEN : str := str_of "<nav".
Definition NAV_CLOSE : str := str_of "</nav>".
Definition GT : char := 62%N.

(** What may stand between "<nav" and the ">" of the opening tag: no ">",
    and at its head, if it is not empty, an ASCII character that is not a
    word character. *)
Definition nav_tag_rest (attrs : str) : bool :=
  forallb (fun c => negb (c =? GT)%N) attrs
  && match attrs with
     | [] => true
     | c :: _ => is_ascii c && negb (is_word c)
     end.

(** The characters a slug keeps: word characters and the hyphen. *)
Definition slug_char (c : char) : bool := is_word c || (c =? HYPHEN)%N.

(** Every run of other characters becomes one hyphen; [in_run] tells that
    the hyphen of the current run is already out. *)
Fixpoint collapse (in_run : bool) (s : str) : str :=
  match s with
  | [] => []
  | c :: s' =>
      if slug_char c then c :: collapse false s'
      else if in_run then collapse true s'
      else HYPHEN :: collapse true s'
  end.

Definition is_hyphen (c : char) : bool := existsb (N.eqb c) (str_of "-").

(** Nothing to strip at the head. *)
Definition head_ok (p : char -> bool) (s : str) : bool :=
  match s with
  | [] => true
  | c :: _ => negb (p c)
  end.

(** Nothing to strip at either end. *)
Definition trimmed (p : char -> bool) (s : str) : bool :=
  head_ok p s && head_ok p (rev s).

(** The ASCII code points. *)
Definition ascii_codes : list char := map N.of_nat (seq 0 128).

(** An ASCII slug character that is not an upper-case letter. *)
Definition slug_clean (c : char) : bool :=
  is_ascii c && slug_char c && negb (ascii_upper c).

(** The code point [x] does not occur in [s]. *)
Definition absent (x : char) (s : str) : bool :=
  forallb (fun c => negb (c =? x)%N) s.

Definition COLON : char := 58%N.

(** Boolean hypotheses as the facts they state. *)
Ltac bools :=
  repeat match goal with
    | H : _ || _ = true |- _ => apply orb_true_iff in H; destruct H
    | H : _ && _ = true |- _ => apply andb_true_iff in H; destruct H
    | H : (_ =? _)%N = true |- _ => apply N.eqb_eq in H
    | H : (_ <=? _)%N = true |- _ => apply N.leb_le in H
    | H : (_ <? _)%N = true |- _ => apply N.ltb_lt in H
    end.

(** The eligible files in the order the loop of [main] takes them. *)
Definition newest_first (files : list entry) : list entry :=
  stable_sort (fun p q => (e_mtime q <? e_mtime p)%N) files.

(** What the loop of [main] makes of one file. *)
Definition post_anchor (p : entry) : str := slugify (stem (e_name p)).

Definition post_entry (p : entry) : str :=
  contents_entry (post_anchor p)
    (extract_title (read_text_safe p) (stem (e_name p))).

Definition MAIN_CLOSE : str := str_of "</main>".










(** What a run shows from outside: its exit status (none where the model
    stops), whether standard error got a report, what was printed and
    what was written to the output file. *)
Definition exit_status (o : outcome) : option nat :=
  match o with
  | NotCompiled _ _ => Some 1
  | Ran (Ret _, _) => Some 0
  | Ran (Exit status, _) => Some status
  | Ran (Stuck, _) => None
  end.

Definition on_stderr (o : outcome) : bool :=
  match o with
  | NotCompiled _ _ => true
  | Ran (_, st) => match stderr st with
                   | [] => false
                   | _ :: _ => true
                   end
  end.

Definition printed (o : outcome) : list str :=
  match o with
  | NotCompiled _ _ => []
  | Ran (_, st) => stdout st
  end.

Definition files_written (o : outcome) : list str :=
  match o with
  | NotCompiled _ _ => []
  | Ran (_, st) => written st
  end.

(** The code points of Latin-1, U+0000 to U+00FF. *)
Definition is_latin1 (c : char) : bool := (c <? 256)%N.

Definition latin1_codes : list char := map N.of_nat (seq 0 256).

(** A Latin-1 slug character that lower-casing leaves as it is. *)
Definition slug_settled (c : char) : bool :=
  is_latin1 c && slug_char c && (simple_lower c =? c)%N.

(** The characters of an ASCII slug. *)
Definition slug_alphabet (c : char) : bool :=
  ascii_lower c || ascii_digit c || (c =? 95)%N || (c =? HYPHEN)%N.

(** A non-empty block without whitespace at its ends that opens a tag. *)
Definition block_ok (b : str) : bool :=
  startswith (str_of "<") b && trimmed is_space b.

(** After whitespace only, a line feed comes. *)
Fixpoint gap_closes (s : str) : bool :=
  match s with
  | [] => false
  | c :: s' => (c =? NL)%N || (is_space c && gap_closes s')
  end.

(** A paragraph break: a line feed followed, after whitespace only, by
    another line feed. *)
Fixpoint paragraph_break (s : str) : bool :=
  match s with
  | [] => false
  | c :: s' => ((c =? NL)%N && gap_closes s') || paragraph_break s'
  end.

(** A paragraph of plain text: not empty, no whitespace at its ends, no
    paragraph break inside, and no "<" in front. *)
Definition plain_paragraph (p : str) : bool :=
  negb (is_empty p) && trimmed is_space p && negb (paragraph_break p)
  && negb (startswith (str_of "<") p).

(** The paragraph element made of a paragraph of plain text. *)
Definition paragraph_of (p : str) : str :=
  str_of "<p>" ++ str_replace [NL] (str_of "<br>") p ++ str_of "</p>".

(** The text with Windows line ends, and with old Macintosh ones. *)
Definition crlf (s : str) : str :=
  flat_map (fun c => if (c =? NL)%N then [CR; NL] else [c]) s.

Definition cr_only (s : str) : str :=
  map (fun c => if (c =? NL)%N then CR else c) s.

(** The characters that [html.escape] replaces, "&" apart. *)
Definition markup_char (c : char) : bool :=
  (c =? 60)%N || (c =? 62)%N || (c =? 34)%N || (c =? 39)%N.

(* ================================================================= *)
(** * Properties *)

(* ----------------------------------------------------------------- *)
(** *** Lists of code points *)

Lemma startswith_app (p s : str) : startswith p (p ++ s) = true.
Proof.
  induction p as [|x p IH]; simpl; [reflexivity|].
  now rewrite N.eqb_refl, IH.
Qed.

Lemma startswith_nil_r (p : str) : startswith p [] = true -> p = [].
Proof. destruct p; simpl; [reflexivity | discriminate]. Qed.


Lemma str_in_app_r (needle a b : str) :
  str_in needle b = true -> str_in needle (a ++ b) = true.
Proof.
  induction a as [|c a IH]; simpl; intros H; [exact H|].
  rewrite (IH H). apply orb_true_r.
Qed.

Lemma str_in_mid (needle a b : str) : str_in needle (a ++ needle ++ b) = true.
Proof.
  apply str_in_app_r.
  destruct (needle ++ b) eqn:E; simpl; rewrite <- E, startswith_app; reflexivity.
Qed.

Lemma occurrences_app_ge (needle a b : str) :
  occurrences needle b <= occurrences needle (a ++ b).
Proof.
  induction a as [|c a IH]; simpl; [lia|].
  destruct (startswith needle (c :: a ++ b)); lia.
Qed.

Lemma occurrences_head (needle s : str) :
  1 <= occurrences needle (needle ++ s).
Proof.
  destruct (needle ++ s) eqn:E; simpl; rewrite <- E, startswith_app; lia.
Qed.

Lemma occurrences_zero_in (needle s : str) :
  occurrences needle s = 0 -> str_in needle s = false.
Proof.
  induction s as [|c s IH]; simpl.
  - destruct (startswith needle []); [discriminate | reflexivity].
  - destruct (startswith needle (c :: s)); [discriminate|].
    simpl. intros H. now apply IH.
Qed.

(** Passing over the occurrence just replaced. *)
Lemma replace_from_skip (old new m rest : str) :
  replace_from old new (length m) (m ++ rest) = replace_from old new 0 rest.
Proof.
  induction m as [|c m IH]; simpl; [reflexivity|].
  destruct rest as [|d rest]; [|exact IH].
  rewrite app_nil_r in *. simpl in IH.
  destruct m; simpl in *; [reflexivity | exact IH].
Qed.

Lemma replace_from_none (old new s : str) :
  occurrences old s = 0 -> replace_from old new 0 s = s.
Proof.
  induction s as [|c s IH]; simpl; [reflexivity|].
  destruct (startswith old (c :: s)); [discriminate|].
  simpl. intros H. now rewrite IH.
Qed.

Lemma replace_from_head (x : char) (old' new v : str) :
  occurrences (x :: old') (old' ++ v) = 0 ->
  replace_from (x :: old') new 0 (x :: old' ++ v) = new ++ v.
Proof.
  intros H.
  assert (Hs : startswith (x :: old') (x :: old' ++ v) = true)
    by apply (startswith_app (x :: old') v).
  assert (Hv : occurrences (x :: old') v = 0).
  { pose proof (occurrences_app_ge (x :: old') old' v). lia. }
  unfold replace_from; fold replace_from. rewrite Hs.
  replace (length (x :: old') - 1) with (length old') by (simpl; lia).
  rewrite replace_from_skip.
  now rewrite (replace_from_none _ _ _ Hv).
Qed.

(** A needle that occurs once is replaced there and nothing else moves. *)
Lemma replace_unique (old new u v : str) :
  old <> [] ->
  occurrences old (u ++ old ++ v) = 1 ->
  str_replace old new (u ++ old ++ v) = u ++ new ++ v.
Proof.
  intros Hold. destruct old as [|x old']; [congruence|]. clear Hold.
  unfold str_replace.
  induction u as [|c u IH]; intros H.
  - change ([] ++ (x :: old') ++ v) with (x :: old' ++ v) in *.
    change ([] ++ new ++ v) with (new ++ v).
    apply replace_from_head.
    assert (Hs : startswith (x :: old') (x :: old' ++ v) = true)
      by apply (startswith_app (x :: old') v).
    unfold occurrences in H; fold occurrences in H.
    rewrite Hs in H. lia.
  - change ((c :: u) ++ (x :: old') ++ v) with (c :: (u ++ (x :: old') ++ v)) in *.
    pose proof (occurrences_app_ge (x :: old') u ((x :: old') ++ v)) as H1.
    pose proof (occurrences_head (x :: old') v) as H2.
    unfold occurrences in H; fold occurrences in H.
    unfold replace_from; fold replace_from.
    destruct (startswith (x :: old') (c :: u ++ (x :: old') ++ v)); [lia|].
    simpl in H. rewrite (IH H). reflexivity.
Qed.

(* ----------------------------------------------------------------- *)
(** *** The template merger with both marker tokens *)

Lemma BLOGS_MARK_nonempty : BLOGS_MARK <> [].
Proof. discriminate. Qed.

Lemma CONTENTS_MARK_nonempty : CONTENTS_MARK <> [].
Proof. discriminate. Qed.

Lemma insert_feed_marker (tpl feed : str) :
  str_in BLOGS_MARK tpl = true ->
  insert_feed tpl feed = Some (str_replace BLOGS_MARK feed tpl).
Proof. intros H. unfold insert_feed. now rewrite H. Qed.

Lemma insert_contents_marker (doc contents : str) :
  str_in CONTENTS_MARK doc = true ->
  insert_contents doc contents = str_replace CONTENTS_MARK contents doc.
Proof. intros H. unfold insert_contents. now rewrite H. Qed.

(** C4, as stated, fails: a template with the feed token twice gets the
    feed twice, while replacing the first occurrence only would leave
    the second token in place. *)
Lemma merge_replaces_every_occurrence :
  let tpl := py "###BLOGS###|###BLOGS###|###BLOG-CONTENTS###" in
  merge tpl (py "F") (py "C") = Some (py "F|F|C") /\
  replace_first CONTENTS_MARK (py "C") (replace_first BLOGS_MARK (py "F") tpl)
    = py "F|###BLOGS###|C" /\
  merge tpl (py "F") (py "C")
    <> Some (replace_first CONTENTS_MARK (py "C")
               (replace_first BLOGS_MARK (py "F") tpl)).
Proof. vm_compute. repeat split; discriminate. Qed.

(** C4, amended: in a template where the feed token occurs exactly once,
    and where the contents token occurs exactly once in the document that
    has the feed in place, the merger puts the feed and the contents
    string in place of the two tokens and leaves every other character of
    the template as it is, whichever token comes first. *)
Theorem merge_markers_frame (feed_first : bool) (a b c feed contents : str) :
  occurrences BLOGS_MARK
    (two_slots feed_first a b c BLOGS_MARK CONTENTS_MARK) = 1 ->
  occurrences CONTENTS_MARK
    (two_slots feed_first a b c feed CONTENTS_MARK) = 1 ->
  merge (two_slots feed_first a b c BLOGS_MARK CONTENTS_MARK) feed contents
  = Some (two_slots feed_first a b c feed contents).
Proof.
  intros H1 H2. unfold merge.
  destruct feed_first; unfold two_slots in *.
  - rewrite (insert_feed_marker _ _ (str_in_mid BLOGS_MARK a _)).
    rewrite (replace_unique _ feed a _ BLOGS_MARK_nonempty H1).
    replace (a ++ feed ++ b ++ CONTENTS_MARK ++ c)
      with ((a ++ feed ++ b) ++ CONTENTS_MARK ++ c) in *
      by now rewrite <- !app_assoc.
    rewrite (insert_contents_marker _ _ (str_in_mid CONTENTS_MARK _ c)).
    rewrite (replace_unique _ contents _ c CONTENTS_MARK_nonempty H2).
    now rewrite <- !app_assoc.
  - replace (a ++ CONTENTS_MARK ++ b ++ BLOGS_MARK ++ c)
      with ((a ++ CONTENTS_MARK ++ b) ++ BLOGS_MARK ++ c) in *
      by now rewrite <- !app_assoc.
    rewrite (insert_feed_marker _ _ (str_in_mid BLOGS_MARK _ c)).
    rewrite (replace_unique _ feed _ c BLOGS_MARK_nonempty H1).
    replace ((a ++ CONTENTS_MARK ++ b) ++ feed ++ c)
      with (a ++ CONTENTS_MARK ++ b ++ feed ++ c)
      by now rewrite <- !app_assoc.
    rewrite (insert_contents_marker _ _ (str_in_mid CONTENTS_MARK a _)).
    now rewrite (replace_unique _ contents a _ CONTENTS_MARK_nonempty H2).
Qed.

Lemma merge_markers_frame_witness :
  merge
    (two_slots false (str_of "<html>") (str_of "<main>")
       (str_of "</main></html>") BLOGS_MARK CONTENTS_MARK)
    (str_of "<article>x</article>") (str_of "<a href='#x'>- x</a>")
  = Some
      (two_slots false (str_of "<html>") (str_of "<main>")
         (str_of "</main></html>") (str_of "<article>x</article>")
         (str_of "<a href='#x'>- x</a>")).
Proof. apply merge_markers_frame; vm_compute; reflexivity. Defined.

(* ----------------------------------------------------------------- *)
(** *** The compiler on the examples of the specification *)

(** C2, as stated, fails: the post body "# Hello\nWorld" does not compile
    to a heading and a paragraph separated by a blank line. *)
Lemma hello_world_not_two_blocks :
  compile_markdown (py "# Hello\nWorld") <> py "<h2>Hello</h2>\n\n<p>World</p>".
Proof. vm_compute. discriminate. Qed.

(** C2, amended: "# Hello\nWorld" compiles to "<h2>Hello</h2>\nWorld": the
    heading line becomes a level-2 heading and the next line, which no
    blank line separates from it, stays in the heading's block, unwrapped.
    With a blank line between the two, "# Hello\n\nWorld", the result is
    "<h2>Hello</h2>\n\n<p>World</p>". *)
Theorem hello_world_compiled :
  compile_markdown (py "# Hello\nWorld") = py "<h2>Hello</h2>\nWorld" /\
  compile_markdown (py "# Hello\n\nWorld") = py "<h2>Hello</h2>\n\n<p>World</p>".
Proof. split; vm_compute; reflexivity. Qed.

(** C1: the later steps do reinterpret fenced content.  A line of a fence
    that begins with "#" becomes a heading element, a URL in a fence is
    wrapped in a hyperlink, and a blank line in a fence splits the code
    container, the second half of which is wrapped in a paragraph. *)
Theorem fenced_content_reinterpreted :
  compile_markdown (py "```\na\n# x\n```")
    = py "<pre><code>a\n<h2>x</code></pre></h2>" /\
  compile_markdown (py "```\nhttp://a.b\n```")
    = py "<pre><code><a href='http://a.b'>http://a.b</a></code></pre>" /\
  compile_markdown (py "```\na\n\nb\n```")
    = py "<pre><code>a\n\n<p>b</code></pre></p>".
Proof. repeat split; vm_compute; reflexivity. Qed.

(* ----------------------------------------------------------------- *)
(** *** The fatal cases of [main] *)

Lemma prints_only_ret (A : Type) (a : A) : prints_only (ret a).
Proof. intros st. exists a, (stdout st). now destruct st. Qed.

Lemma prints_only_print (line : str) : prints_only (print line).
Proof. intros st. now exists tt, (stdout st ++ [line]). Qed.

Lemma prints_only_bind (A B : Type) (c : prog A) (f : A -> prog B) :
  prints_only c -> (forall a, prints_only (f a)) -> prints_only (bind c f).
Proof.
  intros Hc Hf st. unfold bind.
  destruct (Hc st) as (a & out & E). rewrite E.
  destruct (Hf a (IO out (stderr st) (written st))) as (b & out' & E').
  rewrite E'. now exists b, out'.
Qed.

Lemma prints_only_for_each (A : Type) (body : A -> prog unit) (l : list A) :
  (forall x, prints_only (body x)) -> prints_only (for_each l body).
Proof.
  intros Hb. induction l as [|x l IH]; simpl.
  - apply prints_only_ret.
  - apply prints_only_bind; [apply Hb | intros _; exact IH].
Qed.

(** The loop over the posts only prints. *)
Lemma prints_only_collect (files : list entry) (frags conts : list str) :
  prints_only (collect files frags conts).
Proof.
  revert frags conts; induction files as [|p files IH]; intros frags conts; simpl.
  - apply prints_only_ret.
  - apply prints_only_bind; [apply prints_only_print | intros _; apply IH].
Qed.

(** The two fatal cases. *)
Lemma main_missing_dir (w : world) :
  blogs_dir w = None ->
  run_main w
  = (Exit 1,
     IO [str_of "Running generate_blogs.py"]
        [str_of "ERROR: blogs directory not found: " ++ blogs_path w] []).
Proof. intros H. unfold run_main, main. rewrite H. reflexivity. Qed.

Lemma main_missing_template (w : world) (entries : list entry) :
  blogs_dir w = Some entries ->
  template w = None ->
  exists out,
    run_main w
    = (Exit 1,
       IO out [str_of "ERROR: Template file not found: " ++ template_path w] []).
Proof.
  intros Hd Ht. unfold run_main, main. rewrite Hd, Ht.
  unfold bind at 1. unfold print at 1.
  match goal with |- context [bind ?c _ ?st] => 
    assert (Hc : prints_only c); [| destruct (Hc st) as (a & out1 & E1)] end.
  { destruct (filter is_post entries).
    - apply prints_only_print.
    - apply prints_only_bind; [apply prints_only_print | intros _].
      apply prints_only_for_each. intros x. apply prints_only_print. }
  unfold bind at 1. rewrite E1.
  unfold bind at 1.
  match goal with |- context [collect ?l ?f ?c ?st] =>
    destruct (prints_only_collect l f c st) as (r & out2 & E2) end.
  rewrite E2. simpl. now exists out2.
Qed.

(** The tokenizer refuses line 117 at its first backslash. *)
Lemma line_117_refused : stray_backslash Code 0 LINE_117 = Some 54.
Proof. vm_compute. reflexivity. Qed.

(** C9: when the posts directory or the template file is missing, a run
    of the program puts a report on standard error, exits with status 1
    and writes nothing.  As the module stands it is the interpreter that
    reports, for the syntax error of line 117; and the two checks of
    [main], which come before its one write, do the same by themselves:
    [main] prints the diagnostic of the missing path on standard error
    and ends by [sys.exit(1)] with nothing written. *)
Theorem main_fatal_cases (w : world) :
  blogs_dir w = None \/ template w = None ->
  (exit_status (run_program w) = Some 1 /\
   on_stderr (run_program w) = true /\
   files_written (run_program w) = []) /\
  exists st,
    run_main w = (Exit 1, st) /\
    stderr st
    = [match blogs_dir w with
       | None => str_of "ERROR: blogs directory not found: " ++ blogs_path w
       | Some _ => str_of "ERROR: Template file not found: " ++ template_path w
       end] /\
    written st = [].
Proof.
  intros H. split.
  - unfold run_program. rewrite line_117_refused. repeat split.
  - destruct (blogs_dir w) as [entries|] eqn:Hd.
    + destruct H as [H|Ht]; [discriminate|].
      destruct (main_missing_template w entries Hd Ht) as [out E].
      exists (IO out [str_of "ERROR: Template file not found: "
                      ++ template_path w] []).
      rewrite E. repeat split.
    + eexists. rewrite (main_missing_dir w Hd). repeat split.
Qed.

Lemma main_fatal_cases_witness :
  (exit_status
     (run_program
        (World (str_of "/site/blogs") (str_of "/site/blog_template.html")
           (str_of "/site/blogs.html")
           (Some [Entry (str_of "hello.md") true 1 (str_of "# Hello")])
           None)) = Some 1 /\
   on_stderr
     (run_program
        (World (str_of "/site/blogs") (str_of "/site/blog_template.html")
           (str_of "/site/blogs.html")
           (Some [Entry (str_of "hello.md") true 1 (str_of "# Hello")])
           None)) = true /\
   files_written
     (run_program
        (World (str_of "/site/blogs") (str_of "/site/blog_template.html")
           (str_of "/site/blogs.html")
           (Some [Entry (str_of "hello.md") true 1 (str_of "# Hello")])
           None)) = []) /\
  exists st,
    run_main (World (str_of "/site/blogs") (str_of "/site/blog_template.html")
                (str_of "/site/blogs.html")
                (Some [Entry (str_of "hello.md") true 1 (str_of "# Hello")])
                None)
    = (Exit 1, st) /\
    stderr st
    = [str_of "ERROR: Template file not found: "
       ++ str_of "/site/blog_template.html"] /\
    written st = [].
Proof.
  apply (main_fatal_cases
           (World (str_of "/site/blogs") (str_of "/site/blog_template.html")
              (str_of "/site/blogs.html")
              (Some [Entry (str_of "hello.md") true 1 (str_of "# Hello")])
              None)).
  right. reflexivity.
Defined.

(* ----------------------------------------------------------------- *)
(** *** The matcher: literals and stars *)

Section MatcherFacts.

Variable fl : re.flags.

Lemma prev_after_app (prev : option char) (a b : str) :
  prev_after prev (a ++ b) = prev_after (prev_after prev a) b.
Proof. revert prev; induction a; intros; simpl; auto. Qed.

Lemma firstn_diff (t s : str) :
  firstn (length (t ++ s) - length s) (t ++ s) = t.
Proof.
  rewrite length_app. replace (length t + length s - length s) with (length t) by lia.
  rewrite firstn_app, Nat.sub_diag, firstn_all. simpl. apply app_nil_r.
Qed.

Lemma chr_eq_exact (x c : char) :
  re.IGNORECASE fl = false -> re.chr_eq fl x c = (x =? c)%N.
Proof. intros H. unfold re.chr_eq. now rewrite H. Qed.

Lemma lit_match_app (l : str) (prev : option char) (s : str) :
  re.IGNORECASE fl = false ->
  re.lit_match fl l prev (l ++ s) = Some (prev_after prev l, s).
Proof.
  intros Hi. revert prev; induction l as [|x l IH]; intros prev; simpl.
  - reflexivity.
  - rewrite (chr_eq_exact _ _ Hi), N.eqb_refl. apply IH.
Qed.

Lemma lit_match_fail (l : str) (prev : option char) (s : str) :
  re.IGNORECASE fl = false ->
  startswith l s = false -> re.lit_match fl l prev s = None.
Proof.
  intros Hi. revert prev s; induction l as [|x l IH]; intros prev s H; simpl in *.
  - discriminate.
  - destruct s as [|c s]; [reflexivity|].
    rewrite (chr_eq_exact _ _ Hi).
    destruct (x =? c)%N; [|reflexivity]. simpl in H. now apply IH.
Qed.

Variable R : Type.

(** A greedy star over a run that ends where the set stops matching hands
    the run over whole, when what follows then succeeds. *)
Lemma star_greedy_run (cs : re.cset) (k : option char -> str -> option R)
  (run s : str) (prev : option char) (r : R) :
  forallb (re.cset_match fl cs) run = true ->
  match s with [] => true | c :: _ => negb (re.cset_match fl cs c) end = true ->
  k (prev_after prev run) s = Some r ->
  re.star_greedy fl cs k prev (run ++ s) = Some r.
Proof.
  intros Hrun Hstop. revert prev.
  induction run as [|c run IH]; intros prev Hk; simpl in *.
  - destruct s as [|c s]; simpl; [exact Hk|].
    apply negb_true_iff in Hstop. now rewrite Hstop.
  - apply andb_true_iff in Hrun as [Hc Hrun].
    rewrite Hc. now rewrite (IH Hrun (Some c) Hk).
Qed.

(** A lazy star stops at the first position where what follows succeeds. *)
Lemma star_lazy_first (cs : re.cset) (k : option char -> str -> option R)
  (skipped s : str) (prev : option char) (r : R) :
  forallb (re.cset_match fl cs) skipped = true ->
  (forall a b, skipped = a ++ b -> b <> [] ->
               k (prev_after prev a) (b ++ s) = None) ->
  k (prev_after prev skipped) s = Some r ->
  re.star_lazy fl cs k prev (skipped ++ s) = Some r.
Proof.
  revert prev. induction skipped as [|c sk IH]; intros prev Hall Hfail Hk.
  - simpl in *. destruct s; simpl; now rewrite Hk.
  - simpl in Hall. apply andb_true_iff in Hall as [Hc Hall].
    change ((c :: sk) ++ s) with (c :: (sk ++ s)).
    unfold re.star_lazy; fold (@re.star_lazy fl R).
    pose proof (Hfail [] (c :: sk) eq_refl ltac:(discriminate)) as H0.
    simpl in H0. rewrite H0.
    rewrite Hc. apply IH; auto.
    intros a b E Hb. apply (Hfail (c :: a) b); [now rewrite E | exact Hb].
Qed.

End MatcherFacts.

(* ----------------------------------------------------------------- *)
(** *** [re.sub] and [re.search], position by position *)

Section SubFacts.

Variable fl : re.flags.
Variable r : re.regex.
Variable repl : re.captures -> str.

Lemma sub_from_skip (m rest : str) (prev : option char) :
  re.sub_from fl r repl prev (length m) (m ++ rest)
  = re.sub_from fl r repl (prev_after prev m) 0 rest.
Proof.
  revert prev; induction m as [|c m IH]; intros prev; simpl; [reflexivity|].
  apply IH.
Qed.

Lemma sub_from_match (m rest : str) (prev : option char) (caps : re.captures) :
  m <> [] ->
  re.match_here fl r prev (m ++ rest) = Some (caps, rest) ->
  re.sub_from fl r repl prev 0 (m ++ rest)
  = repl caps ++ re.sub_from fl r repl (prev_after prev m) 0 rest.
Proof.
  intros Hm H. destruct m as [|c m]; [congruence|].
  change ((c :: m) ++ rest) with (c :: (m ++ rest)) in *.
  unfold re.sub_from; fold re.sub_from. rewrite H.
  replace (length (c :: m ++ rest) - length rest) with (S (length m))
    by (change (length (c :: m ++ rest)) with (S (length (m ++ rest)));
        rewrite length_app; lia).
  now rewrite sub_from_skip.
Qed.

Lemma sub_from_nomatch (c : char) (s : str) (prev : option char) :
  re.match_here fl r prev (c :: s) = None ->
  re.sub_from fl r repl prev 0 (c :: s)
  = c :: re.sub_from fl r repl (Some c) 0 s.
Proof. intros H. unfold re.sub_from; fold re.sub_from. now rewrite H. Qed.

Lemma sub_from_end (prev : option char) :
  re.match_here fl r prev [] = None ->
  re.sub_from fl r repl prev 0 [] = [].
Proof. intros H. simpl. now rewrite H. Qed.

Lemma search_from_nomatch (c : char) (s before : str) (prev : option char) :
  re.match_here fl r prev (c :: s) = None ->
  re.search_from fl r prev before (c :: s)
  = re.search_from fl r (Some c) (c :: before) s.
Proof. intros H. unfold re.search_from; fold re.search_from. now rewrite H. Qed.

(** A stretch of text in which the pattern matches nowhere is copied. *)
Lemma sub_from_copy (a rest : str) (prev : option char) :
  (forall x y, a = x ++ y -> y <> [] ->
               re.match_here fl r (prev_after prev x) (y ++ rest) = None) ->
  re.sub_from fl r repl prev 0 (a ++ rest)
  = a ++ re.sub_from fl r repl (prev_after prev a) 0 rest.
Proof.
  revert prev; induction a as [|c a IH]; intros prev H; [reflexivity|].
  change ((c :: a) ++ rest) with (c :: (a ++ rest)).
  rewrite sub_from_nomatch.
  - simpl. f_equal. apply IH. intros x y E Hy.
    apply (H (c :: x) y); [now rewrite E | exact Hy].
  - apply (H [] (c :: a)); [reflexivity | discriminate].
Qed.

Lemma search_from_pass (a rest before : str) (prev : option char) :
  (forall x y, a = x ++ y -> y <> [] ->
               re.match_here fl r (prev_after prev x) (y ++ rest) = None) ->
  re.search_from fl r prev before (a ++ rest)
  = re.search_from fl r (prev_after prev a) (rev a ++ before) rest.
Proof.
  revert prev before; induction a as [|c a IH]; intros prev before H; [reflexivity|].
  change ((c :: a) ++ rest) with (c :: (a ++ rest)).
  rewrite search_from_nomatch.
  - rewrite IH.
    + simpl. now rewrite <- app_assoc.
    + intros x y E Hy. apply (H (c :: x) y); [now rewrite E | exact Hy].
  - apply (H [] (c :: a)); [reflexivity | discriminate].
Qed.

End SubFacts.

(* ----------------------------------------------------------------- *)
(** *** Patterns anchored by "^" with [re.MULTILINE], line by line *)

Lemma no_newline_app (a b : str) :
  no_newline (a ++ b) = no_newline a && no_newline b.
Proof. apply forallb_app. Qed.

Lemma at_bol_inside (fl : re.flags) (prev : option char) (x : str) :
  x <> [] -> no_newline x = true -> re.at_bol fl (prev_after prev x) = false.
Proof.
  revert prev; induction x as [|c x IH]; intros prev Hx Hn; [congruence|].
  simpl in Hn. apply andb_true_iff in Hn as [Hc Hn].
  destruct x as [|d x].
  - simpl. apply negb_true_iff in Hc. rewrite Hc. apply andb_false_r.
  - simpl prev_after. apply (IH (Some c)); [discriminate | exact Hn].
Qed.

Lemma at_bol_newline : re.at_bol re.M (Some NL) = true.
Proof. reflexivity. Qed.

Lemma str_join_cons (sep l l2 : str) (ls : list str) :
  str_join sep (l :: l2 :: ls) = l ++ sep ++ str_join sep (l2 :: ls).
Proof. reflexivity. Qed.

Section LineWise.

Variable r : re.regex.

Hypothesis anchored :
  forall prev s, re.at_bol re.M prev = false -> re.match_here re.M r prev s = None.

Variable good : str -> Prop.

(** No match at the start of a line: none anywhere on the line. *)
Lemma line_nomatch (prev : option char) (l tail : str) :
  re.match_here re.M r prev (l ++ tail) = None ->
  no_newline l = true ->
  forall x y, l = x ++ y ->
    re.match_here re.M r (prev_after prev x) (y ++ tail) = None.
Proof.
  intros H Hn x y E. destruct x as [|c x].
  - simpl in *. now subst y.
  - apply anchored. apply at_bol_inside; [discriminate|].
    rewrite E, no_newline_app in Hn. now apply andb_true_iff in Hn.
Qed.

Section Sub.

Variable repl : re.captures -> str.
Variable conv : str -> str.

Hypothesis line_case :
  forall prev l tail,
    re.at_bol re.M prev = true -> no_newline l = true -> good l ->
    line_end tail = true ->
    (re.match_here re.M r prev (l ++ tail) = None /\ conv l = l) \/
    (l <> [] /\ exists caps,
        re.match_here re.M r prev (l ++ tail) = Some (caps, tail) /\
        conv l = repl caps).

Lemma sub_line (prev : option char) (l tail : str) :
  re.at_bol re.M prev = true -> no_newline l = true -> good l ->
  line_end tail = true ->
  re.sub_from re.M r repl prev 0 (l ++ tail)
  = conv l ++ match tail with
              | [] => []
              | c :: rest => c :: re.sub_from re.M r repl (Some c) 0 rest
              end.
Proof.
  intros Hb Hn Hg Ht.
  destruct (line_case prev l tail Hb Hn Hg Ht) as [[H Hc]|(Hl & caps & H & Hc)].
  - rewrite Hc. rewrite sub_from_copy.
    + f_equal. pose proof (line_nomatch _ _ _ H Hn l [] (eq_sym (app_nil_r l))) as H0.
      simpl in H0. destruct tail as [|c rest].
      * now apply sub_from_end.
      * now apply sub_from_nomatch.
    + intros x y E _. now apply line_nomatch with (l := l).
  - rewrite Hc. rewrite (sub_from_match _ _ _ _ _ _ _ Hl H). f_equal.
    assert (H0 : re.match_here re.M r (prev_after prev l) tail = None)
      by (apply anchored; now apply at_bol_inside).
    destruct tail as [|c rest].
    + now apply sub_from_end.
    + now apply sub_from_nomatch.
Qed.

(** The substitution of a text is the substitution of its lines. *)
Lemma sub_lines (ls : list str) (prev : option char) :
  ls <> [] ->
  re.at_bol re.M prev = true ->
  Forall (fun l => no_newline l = true /\ good l) ls ->
  re.sub_from re.M r repl prev 0 (str_join [NL] ls)
  = str_join [NL] (map conv ls).
Proof.
  revert prev; induction ls as [|l ls IH]; intros prev Hne Hb Hall; [congruence|].
  inversion Hall as [|? ? [Hn Hg] Hall']; subst.
  destruct ls as [|l2 ls].
  - simpl. rewrite <- (app_nil_r l) at 1.
    rewrite (sub_line prev l [] Hb Hn Hg eq_refl). apply app_nil_r.
  - rewrite str_join_cons. change (map conv (l :: l2 :: ls))
      with (conv l :: conv l2 :: map conv ls).
    rewrite str_join_cons.
    change ([NL] ++ str_join [NL] (l2 :: ls)) with (NL :: str_join [NL] (l2 :: ls)).
    rewrite (sub_line prev l (NL :: str_join [NL] (l2 :: ls)) Hb Hn Hg eq_refl).
    rewrite (IH (Some NL) ltac:(discriminate) at_bol_newline Hall').
    reflexivity.
Qed.

End Sub.

Section Search.

Variable hit : str -> option re.captures.

Hypothesis line_hit :
  forall prev l tail,
    re.at_bol re.M prev = true -> no_newline l = true -> good l ->
    line_end tail = true ->
    re.match_here re.M r prev (l ++ tail)
    = match hit l with
      | Some caps => Some (caps, tail)
      | None => None
      end.

(** The groups of the leftmost match are those of the first line hit. *)
Lemma search_lines (ls : list str) (prev : option char) (before : str) :
  ls <> [] ->
  re.at_bol re.M prev = true ->
  Forall (fun l => no_newline l = true /\ good l) ls ->
  option_map re.m_groups (re.search_from re.M r prev before (str_join [NL] ls))
  = first_hit hit ls.
Proof.
  revert prev before; induction ls as [|l ls IH]; intros prev before Hne Hb Hall;
    [congruence|].
  inversion Hall as [|? ? [Hn Hg] Hall']; subst.
  assert (Hjoin : exists tail, line_end tail = true /\
            str_join [NL] (l :: ls) = l ++ tail /\
            match tail with
            | [] => ls = []
            | c :: rest => c = NL /\ rest = str_join [NL] ls /\ ls <> []
            end).
  { destruct ls as [|l2 ls].
    - exists []. simpl. now rewrite app_nil_r.
    - exists (NL :: str_join [NL] (l2 :: ls)). repeat split. discriminate. }
  destruct Hjoin as (tail & Ht & Ej & Htail). rewrite Ej.
  pose proof (line_hit prev l tail Hb Hn Hg Ht) as H.
  simpl first_hit. destruct (hit l) as [caps|].
  - destruct (l ++ tail); simpl; now rewrite H.
  - rewrite search_from_pass
      by (intros x y E _; now apply line_nomatch with (l := l)).
    pose proof (line_nomatch _ _ _ H Hn l [] (eq_sym (app_nil_r l))) as H0.
    simpl in H0. destruct tail as [|c rest].
    + subst ls. simpl. now rewrite H0.
    + destruct Htail as (-> & -> & Hls).
      rewrite search_from_nomatch by exact H0.
      now apply IH.
Qed.

End Search.

End LineWise.

Lemma lines_of_nonempty (s : str) : lines_of s <> [].
Proof.
  destruct s as [|c s]; simpl; [discriminate|].
  destruct (c =? NL)%N; [discriminate|].
  destruct (lines_of s); discriminate.
Qed.

Lemma lines_of_join (s : str) : str_join [NL] (lines_of s) = s.
Proof.
  induction s as [|c s IH]; [reflexivity|].
  simpl lines_of. pose proof (lines_of_nonempty s) as Hne.
  destruct (c =? NL)%N eqn:E.
  - apply N.eqb_eq in E; subst c.
    destruct (lines_of s) as [|l ls]; [congruence|].
    rewrite str_join_cons, IH. reflexivity.
  - destruct (lines_of s) as [|l ls]; [congruence|].
    destruct ls as [|l2 ls]; simpl in *; now rewrite <- IH.
Qed.

Lemma lines_of_no_newline (s : str) :
  Forall (fun l => no_newline l = true) (lines_of s).
Proof.
  induction s as [|c s IH]; simpl.
  - repeat constructor.
  - destruct (c =? NL)%N eqn:E.
    + constructor; [reflexivity | exact IH].
    + destruct (lines_of s) as [|l ls]; inversion IH; subst.
      * repeat constructor. simpl. now rewrite E.
      * constructor; [|assumption]. simpl. now rewrite E.
Qed.

(* ----------------------------------------------------------------- *)
(** *** The heading patterns on one line *)

Lemma lstrip_by_split (p : char -> bool) (s : str) :
  exists ws, s = ws ++ lstrip_by p s /\ forallb p ws = true.
Proof.
  induction s as [|c s (ws & E & H)]; simpl.
  - now exists [].
  - destruct (p c) eqn:Hc.
    + exists (c :: ws). simpl. rewrite Hc, H. now rewrite <- E.
    + now exists [].
Qed.

Lemma lstrip_by_head (p : char -> bool) (s : str) :
  match lstrip_by p s with [] => true | c :: _ => negb (p c) end = true.
Proof.
  induction s as [|c s IH]; simpl; [reflexivity|].
  destruct (p c) eqn:Hc; [exact IH | simpl; now rewrite Hc].
Qed.

Lemma startswith_skipn (h l : str) :
  startswith h l = true -> l = h ++ skipn (length h) l.
Proof.
  revert l; induction h as [|x h IH]; intros l H; simpl in *; [reflexivity|].
  destruct l as [|y l]; [discriminate|].
  apply andb_true_iff in H as [Hxy Hh]. apply N.eqb_eq in Hxy; subst y.
  simpl. f_equal. now apply IH.
Qed.

(** A literal without line feed cannot run over the end of a line. *)
Lemma startswith_line (h l tail : str) :
  no_newline h = true -> line_end tail = true ->
  startswith h (l ++ tail) = startswith h l.
Proof.
  intros Hh Ht. revert l; induction h as [|x h IH]; intros l; [reflexivity|].
  simpl in Hh. apply andb_true_iff in Hh as [Hx Hh].
  destruct l as [|y l]; simpl.
  - destruct tail as [|c tail]; [reflexivity|].
    simpl in Ht. apply N.eqb_eq in Ht; subst c.
    apply negb_true_iff in Hx. now rewrite Hx.
  - now rewrite IH.
Qed.

Lemma no_newline_skipn (n : nat) (l : str) :
  no_newline l = true -> no_newline (skipn n l) = true.
Proof.
  revert l; induction n as [|n IH]; intros l H; [exact H|].
  destruct l as [|c l]; [reflexivity|].
  simpl in *. apply andb_true_iff in H as [_ H]. now apply IH.
Qed.

Lemma no_newline_lstrip (p : char -> bool) (l : str) :
  no_newline l = true -> no_newline (lstrip_by p l) = true.
Proof.
  induction l as [|c l IH]; intros H; [reflexivity|].
  simpl. destruct (p c); [|exact H].
  simpl in H. apply andb_true_iff in H as [_ H]. now apply IH.
Qed.

Lemma length_str_of (s : string) : length (str_of s) = String.length s.
Proof.
  unfold str_of. rewrite length_map.
  induction s; simpl; [reflexivity | now f_equal].
Qed.

Lemma dot_not_newline (c : char) :
  negb (c =? NL)%N = true -> re.cset_match re.M re.Dot c = true.
Proof. intros H. simpl. exact H. Qed.

Lemma dot_run (t : str) :
  no_newline t = true -> forallb (re.cset_match re.M re.Dot) t = true.
Proof.
  induction t as [|c t IH]; simpl; [reflexivity|].
  intros H. apply andb_true_iff in H as [Hc Ht]. rewrite Hc. now apply IH.
Qed.

Lemma dot_stops (tail : str) :
  line_end tail = true ->
  match tail with
  | [] => true
  | c :: _ => negb (re.cset_match re.M re.Dot c)
  end = true.
Proof.
  destruct tail as [|c tail]; [reflexivity|]. simpl. intros H. now rewrite H.
Qed.

Lemma at_eol_line_end (tail : str) :
  line_end tail = true -> re.at_eol re.M tail = true.
Proof.
  destruct tail as [|c tail]; [reflexivity|]. simpl. intros H. now rewrite H.
Qed.

(** The group "(.+)" followed by "$" takes a line's text whole. *)
Lemma run_text_eol (R : Type) (k : option char -> str -> re.captures -> option R)
  (t tail : str) (prev : option char) (caps : re.captures) (res : R) :
  t <> [] -> no_newline t = true -> line_end tail = true ->
  k (prev_after prev t) tail ((1, t) :: caps) = Some res ->
  re.run re.M (re.Cat (re.Grp 1 (re.Plus re.Dot)) re.Eol) prev (t ++ tail) caps k
  = Some res.
Proof.
  intros Ht Hn Hl Hk. destruct t as [|c t]; [congruence|].
  simpl in Hn. apply andb_true_iff in Hn as [Hc Hn].
  cbn [re.run re.Plus app].
  rewrite (dot_not_newline c Hc).
  apply star_greedy_run; [now apply dot_run | now apply dot_stops|].
  rewrite (at_eol_line_end tail Hl).
  change (c :: t ++ tail) with ((c :: t) ++ tail).
  rewrite firstn_diff. exact Hk.
Qed.

Section HeadingPattern.

Variable hashes : string.
Hypothesis hashes_line : no_newline (str_of hashes) = true.

Lemma heading_re_anchored (prev : option char) (s : str) :
  re.at_bol re.M prev = false ->
  re.match_here re.M (heading_re hashes) prev s = None.
Proof. intros H. unfold re.match_here. cbn [heading_re re.seq re.run]. now rewrite H. Qed.

Lemma heading_re_nomatch (prev : option char) (l tail : str) :
  line_end tail = true ->
  startswith (str_of hashes) l = false ->
  re.match_here re.M (heading_re hashes) prev (l ++ tail) = None.
Proof.
  intros Ht H. unfold re.match_here. cbn [heading_re re.seq re.run].
  rewrite lit_match_fail; [now destruct (re.at_bol re.M prev) | reflexivity|].
  now rewrite startswith_line.
Qed.

Lemma heading_re_match (prev : option char) (l tail : str) :
  re.at_bol re.M prev = true -> no_newline l = true -> line_end tail = true ->
  startswith (str_of hashes) l = true ->
  heading_text (String.length hashes) l <> [] ->
  re.match_here re.M (heading_re hashes) prev (l ++ tail)
  = Some ([(1, heading_text (String.length hashes) l)], tail).
Proof.
  intros Hb Hn Ht Hs Htext.
  pose proof (startswith_skipn _ _ Hs) as E.
  rewrite length_str_of in E.
  destruct (lstrip_by_split is_space (skipn (String.length hashes) l))
    as (ws & Ews & Hws).
  fold (heading_text (String.length hashes) l) in Ews.
  pose proof (lstrip_by_head is_space (skipn (String.length hashes) l)) as Hhead.
  fold (heading_text (String.length hashes) l) in Hhead.
  assert (Hnt : no_newline (heading_text (String.length hashes) l) = true)
    by now apply no_newline_lstrip, no_newline_skipn.
  set (t := heading_text (String.length hashes) l) in *.
  rewrite E, Ews, <- !app_assoc.
  unfold re.match_here. cbn [heading_re re.seq re.run]. rewrite Hb.
  rewrite lit_match_app by reflexivity.
  apply star_greedy_run.
  - exact Hws.
  - destruct t as [|c t']; [congruence|]. exact Hhead.
  - exact (run_text_eol _ (fun _ s' caps' => Some (caps', s')) t tail
             (prev_after (prev_after prev (str_of hashes)) ws) []
             _ Htext Hnt Ht eq_refl).
Qed.

End HeadingPattern.

Lemma heading_text_nil (n : nat) : heading_text n [] = [].
Proof. unfold heading_text. now rewrite skipn_nil. Qed.

Lemma not_bare_text (hashes : string) (l : str) :
  bare hashes l = false -> startswith (str_of hashes) l = true ->
  heading_text (String.length hashes) l <> [] /\ l <> [].
Proof.
  unfold bare. intros Hb Hs. rewrite Hs in Hb. simpl in Hb.
  split.
  - intros E. now rewrite E in Hb.
  - intros ->. now rewrite heading_text_nil in Hb.
Qed.

Lemma heading_repl_text (tag : string) (t : str) :
  heading_repl tag [(1, t)] = element tag t.
Proof.
  unfold heading_repl, re.expand, element. simpl.
  now rewrite app_nil_r, <- !app_assoc.
Qed.

(** One heading substitution, line by line. *)
Lemma heading_sub_lines (hashes tag : string) (ls : list str) :
  no_newline (str_of hashes) = true ->
  ls <> [] ->
  Forall (fun l => no_newline l = true /\ bare hashes l = false) ls ->
  heading_sub hashes tag (str_join [NL] ls)
  = str_join [NL] (map (heading_conv hashes tag) ls).
Proof.
  intros Hh Hne Hall. unfold heading_sub, re.sub.
  apply (sub_lines (heading_re hashes) (heading_re_anchored hashes)
           (fun l => bare hashes l = false)); [|exact Hne|reflexivity|exact Hall].
  intros prev l tail Hb Hn Hg Ht. unfold heading_conv.
  destruct (startswith (str_of hashes) l) eqn:Hs.
  - right. destruct (not_bare_text hashes l Hg Hs) as [Htext Hl].
    split; [exact Hl|].
    exists [(1, heading_text (String.length hashes) l)]. split.
    + now apply heading_re_match.
    + symmetry. apply heading_repl_text.
  - left. split; [|reflexivity]. now apply heading_re_nomatch.
Qed.

Lemma no_newline_element (tag : string) (body : str) :
  no_newline (str_of tag) = true -> no_newline body = true ->
  no_newline (element tag body) = true.
Proof.
  intros Ht Hb. unfold element.
  rewrite !no_newline_app, Ht, Hb. reflexivity.
Qed.

Lemma no_newline_heading_conv (hashes tag : string) (l : str) :
  no_newline (str_of tag) = true -> no_newline l = true ->
  no_newline (heading_conv hashes tag l) = true.
Proof.
  intros Ht Hl. unfold heading_conv.
  destruct (startswith (str_of hashes) l); [|exact Hl].
  apply no_newline_element; [exact Ht|].
  now apply no_newline_lstrip, no_newline_skipn.
Qed.

(** An element does not start with a hash mark. *)
Lemma startswith_hash_element (h : str) (tag : string) (body : str) :
  startswith (HASH :: h) (element tag body) = false.
Proof. reflexivity. Qed.

Lemma bare_heading_false (l : str) :
  bare_heading l = false ->
  bare "#" l = false /\ bare "##" l = false /\ bare "###" l = false.
Proof.
  unfold bare_heading. intros H.
  apply orb_false_iff in H as [H H3]. apply orb_false_iff in H as [H1 H2].
  auto.
Qed.

Lemma heading_line_conv (l : str) :
  heading_conv "#" "h2" (heading_conv "##" "h3" (heading_conv "###" "h4" l))
  = heading_line l.
Proof.
  unfold heading_line, heading_conv.
  destruct (startswith (str_of "###") l) eqn:H3.
  - change (str_of "##") with (HASH :: str_of "#").
    change (str_of "#") with (HASH :: []).
    now rewrite !startswith_hash_element.
  - destruct (startswith (str_of "##") l) eqn:H2.
    + change (str_of "#") with (HASH :: []).
      now rewrite !startswith_hash_element.
    + reflexivity.
Qed.

(** The heading step, line by line, in a text without bare heading
    lines. *)
Lemma heading_step_lines (ls : list str) :
  ls <> [] ->
  Forall (fun l => no_newline l = true /\ bare_heading l = false) ls ->
  heading_step (str_join [NL] ls) = str_join [NL] (map heading_line ls).
Proof.
  intros Hne Hall. unfold heading_step.
  rewrite heading_sub_lines; [|reflexivity|exact Hne|].
  2:{ eapply Forall_impl; [|exact Hall]. intros l [Hn Hb].
      now destruct (bare_heading_false l Hb) as (_ & _ & H3). }
  rewrite heading_sub_lines; [|reflexivity|now destruct ls|].
  2:{ apply Forall_map. eapply Forall_impl; [|exact Hall]. intros l [Hn Hb].
      destruct (bare_heading_false l Hb) as (_ & H2 & _).
      split; [now apply no_newline_heading_conv|].
      unfold heading_conv. destruct (startswith (str_of "###") l); [|exact H2].
      reflexivity. }
  rewrite heading_sub_lines; [|reflexivity|now destruct ls|].
  2:{ apply Forall_map, Forall_map. eapply Forall_impl; [|exact Hall].
      intros l [Hn Hb].
      destruct (bare_heading_false l Hb) as (H1 & _ & _).
      split; [now apply no_newline_heading_conv, no_newline_heading_conv|].
      unfold heading_conv.
      destruct (startswith (str_of "###") l); [reflexivity|].
      destruct (startswith (str_of "##") l); [reflexivity|exact H1]. }
  rewrite !map_map. f_equal. apply map_ext. intros l. apply heading_line_conv.
Qed.

(* ----------------------------------------------------------------- *)
(** *** The title patterns on one line *)

Section TitlePattern.

Variable hashes : string.
Hypothesis hashes_line : no_newline (str_of hashes) = true.

Lemma title_re_anchored (prev : option char) (s : str) :
  re.at_bol re.M prev = false ->
  re.match_here re.M (title_re hashes) prev s = None.
Proof.
  intros H. unfold re.match_here. cbn [title_re re.seq re.run]. now rewrite H.
Qed.

(** On a line that is not bare, the title pattern matches exactly when the
    line is a heading line in the words of the specification. *)
Lemma title_re_line (prev : option char) (l tail : str) :
  re.at_bol re.M prev = true -> no_newline l = true ->
  bare hashes l = false -> line_end tail = true ->
  re.match_here re.M (title_re hashes) prev (l ++ tail)
  = match option_map (fun t => [(1, t)]) (title_on_line hashes l) with
    | Some caps => Some (caps, tail)
    | None => None
    end.
Proof.
  intros Hb Hn Hg Ht. unfold title_on_line.
  destruct (startswith (str_of hashes) l) eqn:Hs.
  - destruct (not_bare_text hashes l Hg Hs) as [Htext Hl].
    pose proof (startswith_skipn _ _ Hs) as E. rewrite length_str_of in E.
    destruct (lstrip_by_split is_space (skipn (String.length hashes) l))
      as (ws & Ews & Hws).
    pose proof (lstrip_by_head is_space (skipn (String.length hashes) l)) as Hhead.
    assert (Hnt : no_newline (heading_text (String.length hashes) l) = true)
      by now apply no_newline_lstrip, no_newline_skipn.
    fold (heading_text (String.length hashes) l) in Ews, Hhead.
    set (t := heading_text (String.length hashes) l) in *.
    rewrite E at 1. rewrite Ews, <- !app_assoc.
    unfold re.match_here. cbn [title_re re.seq re.run re.Plus]. rewrite Hb.
    rewrite lit_match_app by reflexivity.
    destruct t as [|c t'] eqn:Et; [congruence|].
    destruct ws as [|w ws].
    + cbn [app]. simpl in Hhead. apply negb_true_iff in Hhead.
      cbn [re.cset_match re.atom_match]. now rewrite Hhead.
    + simpl in Hws. apply andb_true_iff in Hws as [Hw Hws].
      cbn [app re.cset_match re.atom_match]. rewrite Hw.
      cbn [option_map].
      apply star_greedy_run; [exact Hws | exact Hhead |].
      exact (run_text_eol _ (fun _ s' caps' => Some (caps', s')) (c :: t') tail
               (prev_after (Some w) ws) [] _ Htext Hnt Ht eq_refl).
  - simpl. unfold re.match_here. cbn [title_re re.seq re.run].
    rewrite lit_match_fail; [now destruct (re.at_bol re.M prev) | reflexivity|].
    now rewrite startswith_line.
Qed.

(** The groups of [re.search] with a title pattern, in a text without
    bare lines. *)
Lemma title_search_lines (ls : list str) :
  ls <> [] ->
  Forall (fun l => no_newline l = true /\ bare hashes l = false) ls ->
  option_map re.m_groups (re.search re.M (title_re hashes) (str_join [NL] ls))
  = option_map (fun t => [(1, t)]) (first_hit (title_on_line hashes) ls).
Proof.
  intros Hne Hall. unfold re.search.
  rewrite (search_lines (title_re hashes) title_re_anchored
             (fun l => bare hashes l = false)
             (fun l => option_map (fun t => [(1, t)]) (title_on_line hashes l))
             title_re_line ls None [] Hne eq_refl Hall).
  clear. induction ls as [|l ls IH]; simpl; [reflexivity|].
  destruct (title_on_line hashes l); simpl; [reflexivity | exact IH].
Qed.

End TitlePattern.

(* ----------------------------------------------------------------- *)
(** *** [extract_title] against the wording of the specification *)

Lemma Forall_lines (P : str -> bool) (md : str) :
  forallb P (lines_of md) = true ->
  Forall (fun l => no_newline l = true /\ P l = true) (lines_of md).
Proof.
  intros H. rewrite forallb_forall in H.
  pose proof (lines_of_no_newline md) as Hn. rewrite Forall_forall in Hn.
  apply Forall_forall. intros l Hl. split; [now apply Hn | now apply H].
Qed.

Lemma extract_title_lines (ls : list str) (fallback : str) :
  ls <> [] ->
  Forall (fun l => no_newline l = true /\
                   (bare "#" l = false /\ bare "##" l = false)) ls ->
  extract_title (str_join [NL] ls) fallback
  = match first_hit (title_on_line "#") ls with
    | Some t => str_strip t
    | None =>
        match first_hit (title_on_line "##") ls with
        | Some t => str_strip t
        | None => fallback
        end
    end.
Proof.
  intros Hne Hall. unfold extract_title.
  assert (H1 := title_search_lines "#" eq_refl ls Hne).
  assert (H2 := title_search_lines "##" eq_refl ls Hne).
  specialize (H1 ltac:(eapply Forall_impl; [|exact Hall];
                       intros l (Hn & Ha & Hb); split; assumption)).
  specialize (H2 ltac:(eapply Forall_impl; [|exact Hall];
                       intros l (Hn & Ha & Hb); split; assumption)).
  destruct (re.search re.M (title_re "#") (str_join [NL] ls)) as [m|];
    destruct (first_hit (title_on_line "#") ls) as [t|];
    simpl in H1; try discriminate.
  - injection H1 as ->. reflexivity.
  - destruct (re.search re.M (title_re "##") (str_join [NL] ls)) as [m|];
      destruct (first_hit (title_on_line "##") ls) as [t|];
      simpl in H2; try discriminate.
    + injection H2 as ->. reflexivity.
    + reflexivity.
Qed.

(** C6: the code misses the claim after a line that is just "#".  The
    whitespace of the title pattern runs over the line feed, so the
    pattern, anchored to one line, reads the next line as the heading
    text: a level-2 heading line is returned although a level-1 heading
    line follows, and a text without any heading line does not yield the
    fallback.  [title_spec] is what the claim says. *)
Lemma bare_hash_takes_next_line :
  extract_title (py "#\n## Sub\n# Main") (py "fallback") = py "## Sub" /\
  title_spec (py "#\n## Sub\n# Main") (py "fallback") = py "Main" /\
  extract_title (py "#\nfoo") (py "fallback") = py "foo" /\
  title_spec (py "#\nfoo") (py "fallback") = py "fallback" /\
  extract_title (py "#\nfoo") (py "fallback")
    <> title_spec (py "#\nfoo") (py "fallback").
Proof. vm_compute. repeat split; discriminate. Qed.

(** Apart from that case the precedence holds: in a text with no line
    that is just "#" or "##" followed by nothing but whitespace,
    [extract_title] returns the trimmed text of the first level-1 heading
    line if there is one anywhere, even after a level-2 heading line;
    otherwise that of the first level-2 heading line; otherwise the
    fallback. *)
Theorem extract_title_precedence (md fallback : str) :
  forallb (fun l => negb (bare "#" l || bare "##" l)) (lines_of md) = true ->
  extract_title md fallback = title_spec md fallback.
Proof.
  intros H. unfold title_spec.
  rewrite <- (lines_of_join md) at 1.
  apply extract_title_lines; [apply lines_of_nonempty|].
  eapply Forall_impl; [|exact (Forall_lines _ md H)].
  intros l [Hn Hb]. split; [exact Hn|].
  apply negb_true_iff, orb_false_iff in Hb. exact Hb.
Qed.

Lemma extract_title_precedence_witness :
  extract_title (py "intro\n## Sub\n# Main \n# Other") (py "fallback")
  = py "Main".
Proof.
  rewrite (extract_title_precedence (py "intro\n## Sub\n# Main \n# Other")
             (py "fallback")); vm_compute; reflexivity.
Defined.

(* ----------------------------------------------------------------- *)
(** *** The heading step *)

(** C5, as stated, fails: a line with four "#" is converted, to a level-4
    heading that keeps the fourth "#"; and a line of exactly three "#" with
    nothing after them becomes a level-3 heading. *)
Lemma four_hashes_converted :
  heading_step (py "#### x") = py "<h4># x</h4>" /\
  heading_step (py "#### x") <> py "#### x" /\
  heading_step (py "###") = py "<h3>#</h3>".
Proof. vm_compute. repeat split; discriminate. Qed.

(** C5, amended: in a text with no line that is just one, two or three "#"
    followed by nothing but whitespace, the heading step rewrites each line
    on its own.  A line beginning with three or more "#" becomes a level-4
    heading whose text is what follows the first three "#" and the
    whitespace after them; a line beginning with exactly two becomes a
    level-3 heading and one with exactly one a level-2 heading; any other
    line is left as it is. *)
Theorem heading_step_by_line (md : str) :
  forallb (fun l => negb (bare_heading l)) (lines_of md) = true ->
  heading_step md = str_join [NL] (map heading_line (lines_of md)).
Proof.
  intros H. rewrite <- (lines_of_join md) at 1.
  apply heading_step_lines; [apply lines_of_nonempty|].
  eapply Forall_impl; [|exact (Forall_lines _ md H)].
  intros l [Hn Hb]. split; [exact Hn | now apply negb_true_iff].
Qed.

Lemma heading_step_by_line_witness :
  heading_step (py "# One\ntext\n##Two\n###  Three\n##### Five")
  = py "<h2>One</h2>\ntext\n<h3>Two</h3>\n<h4>Three</h4>\n<h4>## Five</h4>".
Proof.
  rewrite (heading_step_by_line (py "# One\ntext\n##Two\n###  Three\n##### Five"));
    vm_compute; reflexivity.
Defined.

(* ----------------------------------------------------------------- *)
(** *** Headings without whitespace after the hash marks *)



Lemma heading_line_is_element (l : str) :
  startswith (str_of "#") l = true ->
  startswith (str_of "<h") (heading_line l) = true.
Proof.
  intros H. unfold heading_line. rewrite H.
  destruct (startswith (str_of "###") l); [reflexivity|].
  destruct (startswith (str_of "##") l); reflexivity.
Qed.



(* ----------------------------------------------------------------- *)
(** *** Patterns that do not look behind *)

Lemma starts_within_false (needle a rest : str) :
  starts_within needle a rest = false ->
  forall x y, a = x ++ y -> y <> [] -> startswith needle (y ++ rest) = false.
Proof.
  revert rest; induction a as [|c a IH]; intros rest H x y E Hy.
  - destruct x, y; try discriminate. congruence.
  - simpl in H. apply orb_false_iff in H as [H0 H1].
    destruct x as [|d x].
    + simpl in E. subst y. exact H0.
    + injection E as _ E. now apply (IH rest H1 x y).
Qed.

Lemma startswith_app_long (needle a b : str) :
  length needle <= length a ->
  startswith needle (a ++ b) = startswith needle a.
Proof.
  revert a; induction needle as [|x n IH]; intros a H; [reflexivity|].
  destruct a as [|c a]; simpl in *; [lia|].
  rewrite IH by lia. reflexivity.
Qed.

Section PrevIndependence.

Variable fl : re.flags.

Lemma lit_match_prev (l : str) (p p' : option char) (s : str) :
  option_map snd (re.lit_match fl l p s) = option_map snd (re.lit_match fl l p' s).
Proof.
  revert p p' s; induction l as [|x l IH]; intros p p' s; simpl; [reflexivity|].
  destruct s as [|c s]; [reflexivity|].
  destruct (re.chr_eq fl x c); [apply IH | reflexivity].
Qed.

Lemma star_greedy_prev (R : Type) (cs : re.cset)
  (k k' : option char -> str -> option R) (s : str) (p p' : option char) :
  (forall q q' t, k q t = k' q' t) ->
  re.star_greedy fl cs k p s = re.star_greedy fl cs k' p' s.
Proof.
  intros Hk. revert p p'; induction s as [|c s IH]; intros p p'; simpl.
  - apply Hk.
  - destruct (re.cset_match fl cs c); [|apply Hk].
    rewrite (IH (Some c) (Some c)). now rewrite (Hk p p').
Qed.

Lemma star_lazy_prev (R : Type) (cs : re.cset)
  (k k' : option char -> str -> option R) (s : str) (p p' : option char) :
  (forall q q' t, k q t = k' q' t) ->
  re.star_lazy fl cs k p s = re.star_lazy fl cs k' p' s.
Proof.
  intros Hk. revert p p'; induction s as [|c s IH]; intros p p'; simpl.
  - now rewrite (Hk p p').
  - rewrite (Hk p p'). destruct (k' p' (c :: s)); [reflexivity|].
    destruct (re.cset_match fl cs c); [apply IH | reflexivity].
Qed.

Lemma run_prev (R : Type) (r : re.regex) :
  no_lookbehind r = true ->
  forall (k k' : option char -> str -> re.captures -> option R)
         (p p' : option char) (s : str) (caps : re.captures),
    (forall q q' t c, k q t c = k' q' t c) ->
    re.run fl r p s caps k = re.run fl r p' s caps k'.
Proof.
  induction r as [| | | |l|cs|cs|cs|r1 IH1 r2 IH2|r1 IH1 r2 IH2|n r0 IH0];
    intros Hr k k' p p' s caps Hk; simpl in Hr |- *; try discriminate.
  - apply Hk.
  - destruct s; [apply Hk|]. cbn [re.at_eol]. destruct (_ && _); [apply Hk | reflexivity].
  - pose proof (lit_match_prev l p p' s) as H.
    destruct (re.lit_match fl l p s) as [[q t]|],
             (re.lit_match fl l p' s) as [[q' t']|]; simpl in H; try discriminate.
    + injection H as ->. apply Hk.
    + reflexivity.
  - destruct s as [|c s]; [reflexivity|].
    destruct (re.cset_match fl cs c); [apply Hk | reflexivity].
  - apply star_greedy_prev. intros. apply Hk.
  - apply star_lazy_prev. intros. apply Hk.
  - apply andb_true_iff in Hr as [H1 H2].
    apply IH1; [exact H1|]. intros. now apply IH2.
  - apply andb_true_iff in Hr as [H1 H2].
    rewrite (IH1 H1 k k' p p' s caps Hk).
    destruct (re.run fl r1 p' s caps k'); [reflexivity|]. now apply IH2.
  - apply IH0; [exact Hr|]. intros. apply Hk.
Qed.

Lemma match_here_prev (r : re.regex) (p p' : option char) (s : str) :
  no_lookbehind r = true ->
  re.match_here fl r p s = re.match_here fl r p' s.
Proof. intros Hr. unfold re.match_here. now apply run_prev. Qed.

Lemma sub_from_prev (r : re.regex) (repl : re.captures -> str) (s : str) :
  no_lookbehind r = true ->
  forall p p' n, re.sub_from fl r repl p n s = re.sub_from fl r repl p' n s.
Proof.
  intros Hr. induction s as [|c s IH]; intros p p' n.
  - simpl. destruct n; [|reflexivity].
    now rewrite (match_here_prev r p p' [] Hr).
  - simpl. destruct n; [|apply IH].
    rewrite (match_here_prev r p p' (c :: s) Hr). reflexivity.
Qed.

End PrevIndependence.

(* ----------------------------------------------------------------- *)
(** *** The fence pattern *)

Lemma dotall_run (s : str) : forallb (re.cset_match re.S_ re.Dot) s = true.
Proof. induction s; simpl; auto. Qed.

Lemma fence_match (prev : option char) (tag body post : str) :
  forallb is_word tag = true ->
  starts_within FENCE_CLOSE body FENCE_CLOSE = false ->
  re.match_here re.S_ FENCE_RE prev
    (FENCE ++ tag ++ [NL] ++ body ++ FENCE_CLOSE ++ post)
  = Some ([(2, body); (1, tag)], post).
Proof.
  intros Htag Hbody. unfold re.match_here.
  cbn [FENCE_RE re.seq re.run].
  fold FENCE. fold FENCE_CLOSE.
  rewrite lit_match_app by reflexivity.
  apply star_greedy_run; [exact Htag | reflexivity |].
  rewrite lit_match_app by reflexivity.
  apply star_lazy_first; [apply dotall_run | |].
  - intros a b E Hb.
    rewrite lit_match_fail; [reflexivity | reflexivity |].
    rewrite app_assoc, startswith_app_long.
    + now apply (starts_within_false _ _ _ Hbody a b).
    + rewrite length_app. destruct b; [congruence|]. simpl. lia.
  - rewrite lit_match_app by reflexivity.
    rewrite firstn_diff.
    change (tag ++ [NL] ++ body ++ FENCE_CLOSE ++ post)
      with (tag ++ ([NL] ++ body ++ FENCE_CLOSE ++ post)).
    now rewrite firstn_diff.
Qed.

(** No word character is whitespace. *)
Lemma word_not_space (c : char) : is_word c = true -> is_space c = false.
Proof.
  intros Hw. destruct (is_space c) eqn:Hs; [exfalso|reflexivity].
  unfold is_word, is_alnum, is_space, ascii_digit, ascii_upper, ascii_lower,
    in_range in *.
  bools; lia.
Qed.

Lemma lstrip_by_id (p : char -> bool) (s : str) :
  match s with [] => true | c :: _ => negb (p c) end = true ->
  lstrip_by p s = s.
Proof.
  destruct s as [|c s]; [reflexivity|]. simpl. intros H.
  apply negb_true_iff in H. now rewrite H.
Qed.

Lemma strip_by_id (p : char -> bool) (s : str) :
  forallb (fun c => negb (p c)) s = true -> strip_by p s = s.
Proof.
  intros H. unfold strip_by, rstrip_by.
  rewrite (lstrip_by_id p s)
    by (destruct s; [reflexivity | simpl in H; now bools]).
  rewrite (lstrip_by_id p (rev s)); [apply rev_involutive|].
  assert (Hr : forallb (fun c => negb (p c)) (rev s) = true).
  { rewrite forallb_forall in *. intros x Hx. apply H. now apply in_rev. }
  destruct (rev s); [reflexivity | simpl in Hr; now bools].
Qed.

Lemma str_strip_word (tag : str) :
  forallb is_word tag = true -> str_strip tag = tag.
Proof.
  intros H. apply strip_by_id. rewrite forallb_forall in *.
  intros c Hc. apply negb_true_iff, word_not_space. now apply H.
Qed.

Lemma repl_code_container (tag body : str) :
  forallb is_word tag = true ->
  repl_code [(2, body); (1, tag)] = code_container tag body.
Proof.
  intros H. unfold repl_code, code_container.
  change (re.group_or_empty [(2, body); (1, tag)] 1) with tag.
  change (re.group_or_empty [(2, body); (1, tag)] 2) with body.
  rewrite (str_strip_word tag H).
  destruct tag; simpl; [reflexivity|].
  now rewrite <- !app_assoc.
Qed.

Lemma fence_nomatch (prev : option char) (s : str) :
  startswith FENCE s = false ->
  re.match_here re.S_ FENCE_RE prev s = None.
Proof.
  intros H. unfold re.match_here. cbn [FENCE_RE re.seq re.run]. fold FENCE.
  now rewrite lit_match_fail.
Qed.

(** C7, as stated, fails: a fence whose tag has no whitespace but is not
    made of word characters is not replaced, and ends up in a paragraph. *)
Lemma fence_with_tag_cpp_not_replaced :
  fence_step (py "```c++\nx\n```") = py "```c++\nx\n```" /\
  compile_markdown (py "```c++\nx\n```") = py "<p>```c++<br>x<br>```</p>".
Proof. split; vm_compute; reflexivity. Qed.

(** C7, amended: a fence that opens with three backticks and a tag of
    word characters (possibly none), not preceded by another run of three
    backticks, and that closes at the first line feed followed by three
    backticks, is replaced by a pre/code container of the escaped text
    between the two; the code element has class language-tag, escaped,
    when there is a tag and no class attribute otherwise; the substitution
    goes on after the closing fence.  In particular the python block of
    the specification compiles to its container without a paragraph
    around it. *)
Theorem fence_replaced (pre tag body post : str) :
  starts_within FENCE pre FENCE = false ->
  forallb is_word tag = true ->
  starts_within FENCE_CLOSE body FENCE_CLOSE = false ->
  fence_step (pre ++ FENCE ++ tag ++ [NL] ++ body ++ FENCE_CLOSE ++ post)
  = pre ++ code_container tag body ++ fence_step post /\
  compile_markdown (py "```python\nprint(1)\n```")
  = py "<pre><code class='language-python'>print(1)</code></pre>".
Proof.
  intros Hpre Htag Hbody. split; [|vm_compute; reflexivity].
  unfold fence_step, re.sub.
  rewrite sub_from_copy.
  2:{ intros x y E Hy. apply fence_nomatch.
      rewrite app_assoc, startswith_app_long.
      - now apply (starts_within_false _ _ _ Hpre x y).
      - rewrite length_app. destruct y; [congruence|]. simpl. lia. }
  f_equal.
  replace (FENCE ++ tag ++ [NL] ++ body ++ FENCE_CLOSE ++ post)
    with ((FENCE ++ tag ++ [NL] ++ body ++ FENCE_CLOSE) ++ post)
    by now rewrite <- !app_assoc.
  rewrite (sub_from_match re.S_ FENCE_RE repl_code _ post _ [(2, body); (1, tag)]).
  - rewrite (repl_code_container tag body Htag). f_equal.
    now apply sub_from_prev.
  - discriminate.
  - rewrite <- !app_assoc. now apply fence_match.
Qed.

Lemma fence_replaced_witness :
  fence_step
    (str_of "intro" ++ [NL] ++ FENCE ++ str_of "python" ++ [NL]
     ++ str_of "print(1 < 2)" ++ FENCE_CLOSE ++ NL :: str_of "end")
  = str_of "intro" ++ [NL]
    ++ code_container (str_of "python") (str_of "print(1 < 2)")
    ++ fence_step (NL :: str_of "end") /\
  compile_markdown (py "```python\nprint(1)\n```")
  = py "<pre><code class='language-python'>print(1)</code></pre>".
Proof.
  apply (fence_replaced (str_of "intro" ++ [NL]) (str_of "python")
           (str_of "print(1 < 2)") (NL :: str_of "end")); reflexivity.
Defined.

(* ----------------------------------------------------------------- *)
(** *** The navigation element *)

Lemma any_char_run (s : str) :
  forallb (re.cset_match re.NOFLAGS (re.OneOf [re.Sp; re.NotSp])) s = true.
Proof.
  induction s as [|c s IH]; simpl; [reflexivity|].
  rewrite IH. now destruct (is_space c).
Qed.

Lemma not_gt_run (attrs : str) :
  forallb (fun c => negb (c =? GT)%N) attrs = true ->
  forallb (re.cset_match re.NOFLAGS (re.NoneOf [re.Ch GT])) attrs = true.
Proof.
  induction attrs as [|c s IH]; simpl; [reflexivity|].
  intros H. apply andb_true_iff in H as [Hc H]. rewrite (IH H).
  unfold re.chr_eq. cbn [re.IGNORECASE re.NOFLAGS].
  rewrite N.eqb_sym, orb_false_r, Hc. reflexivity.
Qed.

Lemma nav_match (prev : option char) (attrs body post : str) :
  nav_tag_rest attrs = true ->
  starts_within NAV_CLOSE body NAV_CLOSE = false ->
  re.match_here re.NOFLAGS NAV_RE prev
    (NAV_OPEN ++ attrs ++ [GT] ++ body ++ NAV_CLOSE ++ post)
  = Some ([(3, NAV_CLOSE); (2, body); (1, NAV_OPEN ++ attrs ++ [GT])], post).
Proof.
  intros Hattrs Hbody. unfold nav_tag_rest in Hattrs.
  apply andb_true_iff in Hattrs as [Hgt Hhead].
  unfold re.match_here. cbn [NAV_RE re.seq re.run].
  fold NAV_OPEN. fold NAV_CLOSE.
  rewrite lit_match_app by reflexivity.
  assert (Hwb : re.at_wordb (prev_after prev NAV_OPEN)
                  (attrs ++ [GT] ++ body ++ NAV_CLOSE ++ post) = true).
  { change (prev_after prev NAV_OPEN) with (Some 118%N).
    destruct attrs as [|c attrs]; [reflexivity|].
    apply andb_true_iff in Hhead as [_ Hc]. apply negb_true_iff in Hc.
    unfold re.at_wordb. cbn [app re.word_after]. now rewrite Hc. }
  rewrite Hwb.
  apply star_greedy_run; [now apply not_gt_run | reflexivity |].
  change (str_of ">") with [GT].
  rewrite lit_match_app by reflexivity.
  apply star_lazy_first; [apply any_char_run | |].
  - intros a b E Hb.
    rewrite lit_match_fail; [reflexivity | reflexivity |].
    rewrite app_assoc, startswith_app_long.
    + now apply (starts_within_false _ _ _ Hbody a b).
    + rewrite length_app. destruct b; [congruence|]. simpl. lia.
  - rewrite lit_match_app by reflexivity.
    rewrite !firstn_diff.
    replace (NAV_OPEN ++ attrs ++ [GT] ++ body ++ NAV_CLOSE ++ post)
      with ((NAV_OPEN ++ attrs ++ [GT]) ++ body ++ NAV_CLOSE ++ post)
      by now rewrite <- !app_assoc.
    now rewrite firstn_diff.
Qed.

Lemma nav_nomatch (prev : option char) (s : str) :
  startswith NAV_OPEN s = false ->
  re.match_here re.NOFLAGS NAV_RE prev s = None.
Proof.
  intros H. unfold re.match_here. cbn [NAV_RE re.seq re.run]. fold NAV_OPEN.
  now rewrite lit_match_fail.
Qed.

(** C3, as stated, fails: what stood between the opening tag and "</nav>"
    is dropped, and the contents string goes between two line feeds. *)
Lemma nav_body_dropped :
  insert_contents (py "<nav>old</nav>") (py "C") = py "<nav>\nC\n</nav>" /\
  str_in (py "old") (insert_contents (py "<nav>old</nav>") (py "C")) = false.
Proof. split; vm_compute; reflexivity. Qed.

(** C3, amended: in a document without the contents token, whose first
    "<nav" opens a tag that ends at the next ">", the merger replaces what
    stands between that tag and the first "</nav>" after it by a line
    feed, the contents string and a line feed; the text before the tag,
    the tag, "</nav>" and the text after it are as they were. *)
Theorem nav_contents_replaced (pre attrs body post contents : str) :
  str_in CONTENTS_MARK
    (pre ++ NAV_OPEN ++ attrs ++ [GT] ++ body ++ NAV_CLOSE ++ post) = false ->
  starts_within NAV_OPEN pre NAV_OPEN = false ->
  nav_tag_rest attrs = true ->
  starts_within NAV_CLOSE body NAV_CLOSE = false ->
  insert_contents
    (pre ++ NAV_OPEN ++ attrs ++ [GT] ++ body ++ NAV_CLOSE ++ post) contents
  = pre ++ NAV_OPEN ++ attrs ++ [GT] ++ [NL] ++ contents ++ [NL]
    ++ NAV_CLOSE ++ post.
Proof.
  intros Hmark Hpre Hattrs Hbody. unfold insert_contents.
  rewrite Hmark.
  change (str_of "<nav") with NAV_OPEN. change (str_of "</nav>") with NAV_CLOSE.
  rewrite (str_in_mid NAV_OPEN pre).
  replace (pre ++ NAV_OPEN ++ attrs ++ [GT] ++ body ++ NAV_CLOSE ++ post)
    with ((pre ++ NAV_OPEN ++ attrs ++ [GT] ++ body) ++ NAV_CLOSE ++ post) at 1
    by now rewrite <- !app_assoc.
  rewrite (str_in_mid NAV_CLOSE). cbn [andb].
  unfold re.sub_first, re.search.
  rewrite search_from_pass.
  2:{ intros x y E Hy. apply nav_nomatch.
      rewrite app_assoc, startswith_app_long.
      - now apply (starts_within_false _ _ _ Hpre x y).
      - rewrite length_app. destruct y; [congruence|]. simpl. lia. }
  assert (Hm := nav_match (prev_after None pre) attrs body post Hattrs Hbody).
  destruct (NAV_OPEN ++ attrs ++ [GT] ++ body ++ NAV_CLOSE ++ post) eqn:E;
    [discriminate|].
  unfold re.search_from. rewrite Hm. cbn [re.m_before re.m_groups re.m_after].
  rewrite app_nil_r, rev_involutive.
  change (re.group_or_empty _ 1) with (NAV_OPEN ++ attrs ++ [GT]).
  change (re.group_or_empty _ 3) with NAV_CLOSE.
  now rewrite <- !app_assoc.
Qed.

Lemma nav_contents_replaced_witness :
  insert_contents
    (str_of "<body>" ++ NAV_OPEN ++ str_of " class='toc'" ++ [GT]
     ++ str_of "<b>old</b>" ++ NAV_CLOSE ++ str_of "<nav>2</nav></body>")
    (str_of "<a href='#x'>- x</a>")
  = str_of "<body>" ++ NAV_OPEN ++ str_of " class='toc'" ++ [GT] ++ [NL]
    ++ str_of "<a href='#x'>- x</a>" ++ [NL] ++ NAV_CLOSE
    ++ str_of "<nav>2</nav></body>".
Proof.
  apply (nav_contents_replaced (str_of "<body>") (str_of " class='toc'")
           (str_of "<b>old</b>") (str_of "<nav>2</nav></body>")
           (str_of "<a href='#x'>- x</a>")); reflexivity.
Defined.

(* ----------------------------------------------------------------- *)
(** *** [slugify] *)

Lemma slug_set_match (c : char) :
  re.cset_match re.NOFLAGS (re.NoneOf [re.Wd; re.Ch HYPHEN]) c
  = negb (slug_char c).
Proof.
  unfold slug_char. cbn [re.cset_match re.atom_match existsb].
  unfold re.chr_eq. cbn [re.IGNORECASE re.NOFLAGS].
  now rewrite orb_false_r, (N.eqb_sym HYPHEN c).
Qed.

Lemma collapse_true_run (run rest : str) :
  forallb (fun c => negb (slug_char c)) run = true ->
  head_ok (fun c => negb (slug_char c)) rest = true ->
  collapse true (run ++ rest) = collapse false rest.
Proof.
  intros Hrun Hrest. induction run as [|c run IH]; simpl in *.
  - destruct rest as [|c rest]; [reflexivity|]. simpl in *.
    apply negb_true_iff, negb_false_iff in Hrest. now rewrite Hrest.
  - apply andb_true_iff in Hrun as [Hc Hrun]. apply negb_true_iff in Hc.
    rewrite Hc. now apply IH.
Qed.

(** The substitution of [slugify] is [collapse]. *)
Lemma slug_sub_collapse (n : nat) :
  forall (s : str) (prev : option char),
    length s <= n ->
    re.sub_from re.NOFLAGS SLUG_RE (fun _ => str_of "-") prev 0 s
    = collapse false s.
Proof.
  induction n as [|n IH]; intros s prev Hlen.
  - destruct s; [reflexivity | simpl in Hlen; lia].
  - destruct s as [|c s]; [reflexivity|].
    cbn [collapse]. destruct (slug_char c) eqn:Hc.
    + rewrite sub_from_nomatch.
      * f_equal. apply IH. simpl in Hlen. lia.
      * unfold re.match_here. cbn [SLUG_RE re.Plus re.run].
        now rewrite slug_set_match, Hc.
    + destruct (lstrip_by_split (fun c => negb (slug_char c)) s)
        as (run & E & Hrun).
      pose proof (lstrip_by_head (fun c => negb (slug_char c)) s) as Hhead.
      set (rest := lstrip_by (fun c => negb (slug_char c)) s) in *.
      rewrite E. change (c :: run ++ rest) with ((c :: run) ++ rest).
      rewrite (sub_from_match re.NOFLAGS SLUG_RE _ (c :: run) rest prev []).
      * rewrite collapse_true_run; [|exact Hrun|exact Hhead].
        change (str_of "-") with [HYPHEN]. cbn [app]. f_equal.
        apply IH. simpl in Hlen.
        assert (length s = length run + length rest)
          by (rewrite E at 1; apply length_app).
        lia.
      * discriminate.
      * unfold re.match_here. cbn [SLUG_RE re.Plus re.run app].
        rewrite slug_set_match, Hc. cbn [negb].
        apply star_greedy_run; [| |reflexivity].
        -- rewrite forallb_forall in *. intros x Hx.
           rewrite slug_set_match. now apply Hrun.
        -- destruct rest as [|d rest']; [reflexivity|].
           now rewrite slug_set_match.
Qed.

Lemma slugify_collapse (name : str) :
  slugify name
  = match str_lower (strip_by is_hyphen (collapse false name)) with
    | [] => str_of "post"
    | c :: t => c :: t
    end.
Proof.
  unfold slugify, re.sub.
  rewrite (slug_sub_collapse (length name) name None (le_n _)).
  change (str_strip_chars (str_of "-") (collapse false name))
    with (strip_by is_hyphen (collapse false name)).
  now destruct (str_lower (strip_by is_hyphen (collapse false name))).
Qed.

(** A property of code points checked on every ASCII one. *)
Lemma ascii_codes_all (P : char -> bool) :
  forallb P ascii_codes = true -> forall c, is_ascii c = true -> P c = true.
Proof.
  intros H c Hc. rewrite forallb_forall in H. apply H.
  unfold ascii_codes. apply in_map_iff. exists (N.to_nat c).
  split; [apply N2Nat.id|]. apply in_seq.
  unfold is_ascii in Hc. apply N.ltb_lt in Hc. lia.
Qed.

Lemma str_eqb_eq (a b : str) : str_eqb a b = true -> a = b.
Proof.
  revert b; induction a as [|x a IH]; intros [|y b] H; simpl in H;
    try discriminate; [reflexivity|].
  apply andb_true_iff in H as [Hxy H]. apply N.eqb_eq in Hxy.
  now rewrite Hxy, (IH b H).
Qed.

Lemma lower_char_ascii (c : char) :
  is_ascii c = true -> lower_char c = [simple_lower c].
Proof.
  intros Hc. apply str_eqb_eq.
  apply (ascii_codes_all (fun c => str_eqb (lower_char c) [simple_lower c]));
    [vm_compute; reflexivity | exact Hc].
Qed.

Lemma simple_lower_slug (c : char) :
  is_ascii c = true -> slug_char c = true ->
  is_ascii (simple_lower c) && slug_char (simple_lower c)
  && negb (ascii_upper (simple_lower c)) = true.
Proof.
  intros Hc Hs.
  pose proof (ascii_codes_all
    (fun c => implb (slug_char c)
                (is_ascii (simple_lower c) && slug_char (simple_lower c)
                 && negb (ascii_upper (simple_lower c))))
    ltac:(vm_compute; reflexivity) c Hc) as H.
  cbv beta in H. now rewrite Hs in H.
Qed.

Lemma simple_lower_hyphen (c : char) :
  is_ascii c = true -> is_hyphen (simple_lower c) = is_hyphen c.
Proof.
  intros Hc. apply eqb_prop.
  apply (ascii_codes_all
           (fun c => Bool.eqb (is_hyphen (simple_lower c)) (is_hyphen c)));
    [vm_compute; reflexivity | exact Hc].
Qed.

Lemma simple_lower_fixed (c : char) :
  is_ascii c = true -> ascii_upper c = false -> simple_lower c = c.
Proof.
  intros Hc Hu. apply N.eqb_eq.
  pose proof (ascii_codes_all
    (fun c => implb (negb (ascii_upper c)) (simple_lower c =? c)%N)
    ltac:(vm_compute; reflexivity) c Hc) as H.
  cbv beta in H. now rewrite Hu in H.
Qed.

Lemma collapse_slug (s : str) (b : bool) :
  forallb slug_char (collapse b s) = true.
Proof.
  revert b; induction s as [|c s IH]; intros b; simpl; [reflexivity|].
  destruct (slug_char c) eqn:Hc.
  - simpl. now rewrite Hc, IH.
  - destruct b; [apply IH|]. simpl. apply IH.
Qed.

Lemma collapse_ascii (s : str) (b : bool) :
  forallb is_ascii s = true -> forallb is_ascii (collapse b s) = true.
Proof.
  revert b; induction s as [|c s IH]; intros b H; simpl in *; [reflexivity|].
  apply andb_true_iff in H as [Hc H].
  destruct (slug_char c).
  - simpl. now rewrite Hc, IH.
  - destruct b; [now apply IH|]. simpl. now apply IH.
Qed.

Lemma collapse_id (t : str) :
  forallb slug_char t = true -> collapse false t = t.
Proof.
  induction t as [|c t IH]; simpl; [reflexivity|].
  intros H. apply andb_true_iff in H as [Hc H]. rewrite Hc. now rewrite IH.
Qed.

Lemma forallb_rev (Q : char -> bool) (s : str) :
  forallb Q s = true -> forallb Q (rev s) = true.
Proof.
  rewrite !forallb_forall. intros H x Hx. apply H. now apply in_rev.
Qed.

Lemma forallb_lstrip (Q p : char -> bool) (s : str) :
  forallb Q s = true -> forallb Q (lstrip_by p s) = true.
Proof.
  induction s as [|c s IH]; simpl; [reflexivity|]. intros H.
  destruct (p c); [|exact H].
  apply andb_true_iff in H as [_ H]. now apply IH.
Qed.

Lemma forallb_strip (Q p : char -> bool) (s : str) :
  forallb Q s = true -> forallb Q (strip_by p s) = true.
Proof.
  intros H. unfold strip_by, rstrip_by.
  now apply forallb_rev, forallb_lstrip, forallb_rev, forallb_lstrip.
Qed.

Lemma head_ok_lstrip (p : char -> bool) (s : str) :
  head_ok p (lstrip_by p s) = true.
Proof. apply lstrip_by_head. Qed.

(** A suffix, reversed, begins as the whole does. *)
Lemma head_ok_rev_suffix (p : char -> bool) (u a w : str) :
  head_ok p u = true -> rev u = a ++ w -> head_ok p (rev w) = true.
Proof.
  intros Hu E.
  assert (Eu : u = rev w ++ rev a).
  { rewrite <- (rev_involutive u), E. apply rev_app_distr. }
  destruct (rev w) as [|c rw]; [reflexivity|].
  rewrite Eu in Hu. exact Hu.
Qed.

Lemma strip_by_trimmed (p : char -> bool) (u : str) :
  trimmed p (strip_by p u) = true.
Proof.
  unfold trimmed, strip_by, rstrip_by. rewrite rev_involutive.
  rewrite head_ok_lstrip, andb_true_r.
  destruct (lstrip_by_split p (rev (lstrip_by p u))) as (a & E & _).
  apply (head_ok_rev_suffix p (lstrip_by p u) a); [apply head_ok_lstrip | exact E].
Qed.

Lemma strip_by_fixed (p : char -> bool) (t : str) :
  trimmed p t = true -> strip_by p t = t.
Proof.
  unfold trimmed. intros H. apply andb_true_iff in H as [H1 H2].
  unfold strip_by, rstrip_by.
  rewrite (lstrip_by_id p t H1), (lstrip_by_id p (rev t) H2).
  apply rev_involutive.
Qed.

Lemma str_lower_ascii (v : str) :
  forallb is_ascii v = true -> str_lower v = map simple_lower v.
Proof.
  induction v as [|c v IH]; simpl; [reflexivity|]. intros H.
  apply andb_true_iff in H as [Hc H].
  now rewrite (lower_char_ascii c Hc), (IH H).
Qed.

Lemma head_ok_lower (v : str) :
  forallb is_ascii v = true ->
  head_ok is_hyphen (map simple_lower v) = head_ok is_hyphen v.
Proof.
  destruct v as [|c v]; simpl; [reflexivity|]. intros H.
  apply andb_true_iff in H as [Hc _]. now rewrite (simple_lower_hyphen c Hc).
Qed.

Lemma trimmed_lower (v : str) :
  forallb is_ascii v = true ->
  trimmed is_hyphen (map simple_lower v) = trimmed is_hyphen v.
Proof.
  intros H. unfold trimmed. rewrite <- map_rev.
  rewrite (head_ok_lower v H), (head_ok_lower (rev v) (forallb_rev _ _ H)).
  reflexivity.
Qed.

Lemma forallb_and (P Q : char -> bool) (s : str) :
  forallb P s = true -> forallb Q s = true ->
  forallb (fun c => P c && Q c) s = true.
Proof.
  rewrite !forallb_forall. intros HP HQ c Hc.
  now rewrite (HP c Hc), (HQ c Hc).
Qed.

(** What [slugify] is left with before its "or": clean and trimmed. *)
Lemma slug_body_clean (x : str) :
  forallb is_ascii x = true ->
  forallb slug_clean (str_lower (strip_by is_hyphen (collapse false x))) = true
  /\ trimmed is_hyphen (str_lower (strip_by is_hyphen (collapse false x)))
     = true.
Proof.
  intros Hx. set (v := strip_by is_hyphen (collapse false x)).
  assert (Ha : forallb is_ascii v = true)
    by now apply forallb_strip, collapse_ascii.
  assert (Hs : forallb slug_char v = true)
    by apply forallb_strip, collapse_slug.
  rewrite (str_lower_ascii v Ha). split.
  - rewrite forallb_forall in *. intros d Hd.
    apply in_map_iff in Hd as (c & <- & Hc).
    apply simple_lower_slug; [now apply Ha | now apply Hs].
  - rewrite (trimmed_lower v Ha). apply strip_by_trimmed.
Qed.

(** A property of code points checked on every Latin-1 one. *)
Lemma latin1_codes_all (P : char -> bool) :
  forallb P latin1_codes = true -> forall c, is_latin1 c = true -> P c = true.
Proof.
  intros H c Hc. rewrite forallb_forall in H. apply H.
  unfold latin1_codes. apply in_map_iff. exists (N.to_nat c).
  split; [apply N2Nat.id|]. apply in_seq.
  unfold is_latin1 in Hc. apply N.ltb_lt in Hc. lia.
Qed.

Lemma lower_char_latin1 (c : char) :
  is_latin1 c = true -> lower_char c = [simple_lower c].
Proof.
  intros Hc. apply str_eqb_eq.
  apply (latin1_codes_all (fun c => str_eqb (lower_char c) [simple_lower c]));
    [vm_compute; reflexivity | exact Hc].
Qed.

(** Lower-casing keeps a Latin-1 slug character one, and settles it. *)
Lemma simple_lower_settles (c : char) :
  is_latin1 c = true -> slug_char c = true ->
  slug_settled (simple_lower c) = true.
Proof.
  intros Hc Hs.
  pose proof (latin1_codes_all
    (fun c => implb (slug_char c) (slug_settled (simple_lower c)))
    ltac:(vm_compute; reflexivity) c Hc) as H.
  cbv beta in H. now rewrite Hs in H.
Qed.

Lemma simple_lower_hyphen_latin1 (c : char) :
  is_latin1 c = true -> is_hyphen (simple_lower c) = is_hyphen c.
Proof.
  intros Hc. apply eqb_prop.
  apply (latin1_codes_all
           (fun c => Bool.eqb (is_hyphen (simple_lower c)) (is_hyphen c)));
    [vm_compute; reflexivity | exact Hc].
Qed.

Lemma collapse_latin1 (s : str) (b : bool) :
  forallb is_latin1 s = true -> forallb is_latin1 (collapse b s) = true.
Proof.
  revert b; induction s as [|c s IH]; intros b H; simpl in *; [reflexivity|].
  apply andb_true_iff in H as [Hc H].
  destruct (slug_char c).
  - simpl. now rewrite Hc, IH.
  - destruct b; [now apply IH|]. simpl. now apply IH.
Qed.

Lemma str_lower_latin1 (v : str) :
  forallb is_latin1 v = true -> str_lower v = map simple_lower v.
Proof.
  induction v as [|c v IH]; simpl; [reflexivity|]. intros H.
  apply andb_true_iff in H as [Hc H].
  now rewrite (lower_char_latin1 c Hc), (IH H).
Qed.

Lemma head_ok_lower_latin1 (v : str) :
  forallb is_latin1 v = true ->
  head_ok is_hyphen (map simple_lower v) = head_ok is_hyphen v.
Proof.
  destruct v as [|c v]; simpl; [reflexivity|]. intros H.
  apply andb_true_iff in H as [Hc _].
  now rewrite (simple_lower_hyphen_latin1 c Hc).
Qed.

Lemma trimmed_lower_latin1 (v : str) :
  forallb is_latin1 v = true ->
  trimmed is_hyphen (map simple_lower v) = trimmed is_hyphen v.
Proof.
  intros H. unfold trimmed. rewrite <- map_rev.
  rewrite (head_ok_lower_latin1 v H),
    (head_ok_lower_latin1 (rev v) (forallb_rev _ _ H)).
  reflexivity.
Qed.

(** What [slugify] is left with before its "or", for a Latin-1 name:
    settled slug characters, trimmed of hyphens. *)
Lemma slug_body_settled (x : str) :
  forallb is_latin1 x = true ->
  forallb slug_settled (str_lower (strip_by is_hyphen (collapse false x)))
  = true
  /\ trimmed is_hyphen (str_lower (strip_by is_hyphen (collapse false x)))
     = true.
Proof.
  intros Hx. set (v := strip_by is_hyphen (collapse false x)).
  assert (Ha : forallb is_latin1 v = true)
    by now apply forallb_strip, collapse_latin1.
  assert (Hs : forallb slug_char v = true)
    by apply forallb_strip, collapse_slug.
  rewrite (str_lower_latin1 v Ha). split.
  - rewrite forallb_forall in *. intros d Hd.
    apply in_map_iff in Hd as (c & <- & Hc).
    apply simple_lower_settles; [now apply Ha | now apply Hs].
  - rewrite (trimmed_lower_latin1 v Ha). apply strip_by_trimmed.
Qed.

(** A settled, trimmed, non-empty text is its own slug. *)
Lemma slugify_settled (t : str) :
  t <> [] -> forallb slug_settled t = true -> trimmed is_hyphen t = true ->
  slugify t = t.
Proof.
  intros Hne Hc Ht. rewrite slugify_collapse.
  assert (Hs : forallb slug_char t = true).
  { rewrite forallb_forall in *. intros c Hin. specialize (Hc c Hin).
    unfold slug_settled in Hc.
    apply andb_true_iff in Hc as [Hc _]. now apply andb_true_iff in Hc. }
  assert (Ha : forallb is_latin1 t = true).
  { rewrite forallb_forall in *. intros c Hin. specialize (Hc c Hin).
    unfold slug_settled in Hc.
    apply andb_true_iff in Hc as [Hc _]. now apply andb_true_iff in Hc. }
  rewrite (collapse_id t Hs), (strip_by_fixed is_hyphen t Ht).
  rewrite (str_lower_latin1 t Ha).
  assert (E : map simple_lower t = t).
  { rewrite <- (map_id t) at 2. apply map_ext_in. intros c Hin.
    rewrite forallb_forall in Hc. specialize (Hc c Hin).
    unfold slug_settled in Hc. apply andb_true_iff in Hc as [_ Hf].
    now apply N.eqb_eq. }
  rewrite E. destruct t; [congruence | reflexivity].
Qed.

(** C8, as stated, fails: lower-casing U+0130 yields "i" followed by the
    combining dot U+0307, which is not a word character, so the slug of
    the slug loses it. *)
Lemma slugify_dotted_I_not_idempotent :
  slugify [304%N] = [105%N; 775%N] /\
  slugify (slugify [304%N]) = [105%N] /\
  slugify (slugify [304%N]) <> slugify [304%N].
Proof. vm_compute. repeat split; discriminate. Qed.

(** C8, amended: [slugify] is idempotent on the strings of Latin-1
    characters (code points below 256), the ASCII ones among them. *)
Theorem slugify_idempotent_latin1 (x : str) :
  forallb is_latin1 x = true -> slugify (slugify x) = slugify x.
Proof.
  intros Hx. destruct (slug_body_settled x Hx) as [Hc Ht].
  rewrite (slugify_collapse x).
  destruct (str_lower (strip_by is_hyphen (collapse false x))) as [|c t] eqn:E.
  - vm_compute. reflexivity.
  - apply slugify_settled; [discriminate | exact Hc | exact Ht].
Qed.

Lemma slugify_idempotent_latin1_witness :
  slugify (slugify ([201%N] ++ str_of "t" ++ [201%N] ++ str_of " -- Ni"
                    ++ [241%N] ++ str_of "o!.md"))
  = slugify ([201%N] ++ str_of "t" ++ [201%N] ++ str_of " -- Ni"
             ++ [241%N] ++ str_of "o!.md").
Proof.
  apply (slugify_idempotent_latin1
           ([201%N] ++ str_of "t" ++ [201%N] ++ str_of " -- Ni"
            ++ [241%N] ++ str_of "o!.md")).
  vm_compute. reflexivity.
Defined.

(* ----------------------------------------------------------------- *)
(** *** Steps that leave a one-line text alone *)

Lemma absent_skipn (x : char) (n : nat) (s : str) :
  absent x s = true -> absent x (skipn n s) = true.
Proof.
  revert s; induction n as [|n IH]; intros s H; [exact H|].
  destruct s as [|c s]; [reflexivity|].
  simpl in *. apply andb_true_iff in H as [_ H]. now apply IH.
Qed.

Lemma absent_app (x : char) (a b : str) :
  absent x (a ++ b) = absent x a && absent x b.
Proof. apply forallb_app. Qed.

Lemma absent_lstrip (x : char) (p : char -> bool) (s : str) :
  absent x s = true -> absent x (lstrip_by p s) = true.
Proof. apply forallb_lstrip. Qed.

Lemma occurrences_absent (x : char) (rest s : str) :
  absent x s = true -> occurrences (x :: rest) s = 0.
Proof.
  induction s as [|c s IH]; [reflexivity|].
  intros H. simpl in H. apply andb_true_iff in H as [Hc H].
  apply negb_true_iff in Hc. rewrite N.eqb_sym in Hc.
  cbn [occurrences startswith]. rewrite Hc. simpl. now apply IH.
Qed.

Lemma normalize_id (s : str) : absent CR s = true -> normalize s = s.
Proof.
  intros H. unfold normalize, str_replace.
  rewrite (replace_from_none [CR; NL] [NL] s (occurrences_absent CR [NL] s H)).
  now rewrite (replace_from_none [CR] [NL] s (occurrences_absent CR [] s H)).
Qed.

Section LiteralFacts.

Variable fl : re.flags.
Hypothesis exact : re.IGNORECASE fl = false.

Lemma lit_match_absent (x : char) (l : str) (prev : option char) (s : str) :
  absent x s = true -> re.lit_match fl (x :: l) prev s = None.
Proof.
  intros H. apply lit_match_fail; [exact exact|].
  destruct s as [|c s]; [reflexivity|].
  simpl in H. apply andb_true_iff in H as [Hc _].
  apply negb_true_iff in Hc. rewrite N.eqb_sym in Hc.
  cbn [startswith]. now rewrite Hc.
Qed.

Lemma lit_match_rest (l : str) (prev p' : option char) (s s' : str) :
  re.lit_match fl l prev s = Some (p', s') -> s' = skipn (length l) s.
Proof.
  revert prev s; induction l as [|x l IH]; intros prev s H; simpl in H.
  - now injection H as _ ->.
  - destruct s as [|c s]; [discriminate|].
    destruct (re.chr_eq fl x c); [|discriminate]. simpl. now apply (IH (Some c)).
Qed.

Lemma lit_match_keeps_absent (x : char) (l : str) (prev p' : option char)
  (s s' : str) :
  re.lit_match fl l prev s = Some (p', s') ->
  absent x s = true -> absent x s' = true.
Proof.
  intros H Hs. rewrite (lit_match_rest l prev p' s s' H). now apply absent_skipn.
Qed.

(** A star fails when what follows fails wherever the star may stop. *)
Lemma star_greedy_none (R : Type) (cs : re.cset)
  (k : option char -> str -> option R) (s : str) (prev : option char) :
  (forall p a b, s = a ++ b -> k p b = None) ->
  re.star_greedy fl cs k prev s = None.
Proof.
  revert prev; induction s as [|c s IH]; intros prev H; simpl.
  - now apply (H prev [] []).
  - rewrite (H prev [] (c :: s) eq_refl).
    destruct (re.cset_match fl cs c); [|reflexivity].
    rewrite IH; [reflexivity|].
    intros p a b E. apply (H p (c :: a) b). now rewrite E.
Qed.

(** A pattern that matches nowhere leaves the text as it is. *)
Lemma sub_nowhere (r : re.regex) (repl : re.captures -> str) (s : str) :
  (forall prev x y, s = x ++ y -> re.match_here fl r prev y = None) ->
  re.sub fl r repl s = s.
Proof.
  intros H. unfold re.sub. rewrite <- (app_nil_r s) at 1.
  rewrite sub_from_copy.
  - rewrite sub_from_end; [apply app_nil_r|]. apply (H _ s []).
    now rewrite app_nil_r.
  - intros x y E _. rewrite app_nil_r. now apply (H _ x y).
Qed.

Lemma split_from_nowhere (r : re.regex) (s piece : str) (prev : option char) :
  (forall p x y, s = x ++ y -> re.match_here fl r p y = None) ->
  re.split_from fl r prev 0 piece s = [rev piece ++ s].
Proof.
  revert piece prev; induction s as [|c s IH]; intros piece prev H.
  - simpl. now rewrite app_nil_r.
  - cbn [re.split_from]. rewrite (H prev [] (c :: s) eq_refl).
    rewrite IH.
    + simpl. now rewrite <- app_assoc.
    + intros p x y E. apply (H p (c :: x) y). now rewrite E.
Qed.

End LiteralFacts.

Lemma absent_suffix (x : char) (a b : str) :
  absent x (a ++ b) = true -> absent x b = true.
Proof. rewrite absent_app. intros H. now apply andb_true_iff in H. Qed.

Lemma fence_step_id (s : str) : no_newline s = true -> fence_step s = s.
Proof.
  intros H. apply sub_nowhere. intros prev x y E.
  assert (Hy : absent NL y = true) by (apply (absent_suffix NL x); now rewrite <- E).
  unfold re.match_here. cbn [FENCE_RE re.seq re.run].
  destruct (re.lit_match re.S_ (str_of "```") prev y) as [[p' s']|] eqn:El;
    [|reflexivity].
  pose proof (lit_match_keeps_absent re.S_ NL _ _ _ _ _ El Hy) as Hs'.
  apply star_greedy_none. intros p a b Eb.
  rewrite lit_match_absent; [reflexivity | reflexivity|].
  apply (absent_suffix NL a). now rewrite <- Eb.
Qed.

Lemma autolink_step_id (s : str) : absent COLON s = true -> autolink_step s = s.
Proof.
  intros H. apply sub_nowhere. intros prev x y E.
  assert (Hy : absent COLON y = true)
    by (apply (absent_suffix COLON x); now rewrite <- E).
  unfold re.match_here. cbn [URL_RE re.seq re.run re.Opt].
  destruct (re.lit_match re.NOFLAGS (str_of "http") prev y) as [[p' s']|] eqn:El;
    [|reflexivity].
  pose proof (lit_match_keeps_absent re.NOFLAGS COLON _ _ _ _ _ El Hy) as Hs'.
  destruct (re.lit_match re.NOFLAGS (str_of "s") p' s') as [[p2 s2]|] eqn:E2.
  - pose proof (lit_match_keeps_absent re.NOFLAGS COLON _ _ _ _ _ E2 Hs') as Hs2.
    change (str_of "://") with (COLON :: str_of "//").
    rewrite (lit_match_absent re.NOFLAGS eq_refl COLON _ p2 s2 Hs2).
    now rewrite (lit_match_absent re.NOFLAGS eq_refl COLON _ p' s' Hs').
  - change (str_of "://") with (COLON :: str_of "//").
    now rewrite (lit_match_absent re.NOFLAGS eq_refl COLON _ p' s' Hs').
Qed.

Lemma split_blank_id (s : str) :
  no_newline s = true -> re.split re.NOFLAGS BLANK_RE s = [s].
Proof.
  intros H. unfold re.split.
  rewrite (split_from_nowhere re.NOFLAGS BLANK_RE s [] None); [reflexivity|].
  intros p x y E.
  assert (Hy : absent NL y = true) by (apply (absent_suffix NL x); now rewrite <- E).
  unfold re.match_here. cbn [BLANK_RE re.seq re.run].
  now rewrite (lit_match_absent re.NOFLAGS eq_refl NL [] p y Hy).
Qed.

Lemma lines_of_one (s : str) : no_newline s = true -> lines_of s = [s].
Proof.
  induction s as [|c s IH]; [reflexivity|]. intros H.
  simpl in H. apply andb_true_iff in H as [Hc H]. apply negb_true_iff in Hc.
  cbn [lines_of]. rewrite Hc, (IH H). reflexivity.
Qed.

Lemma trimmed_angle (mid : str) :
  trimmed is_space (60%N :: mid ++ [62%N]) = true.
Proof.
  unfold trimmed. cbn [head_ok rev].
  rewrite rev_app_distr. reflexivity.
Qed.

Lemma element_angle (tag : string) (body : str) :
  exists mid, element tag body = 60%N :: mid ++ [62%N].
Proof.
  exists (str_of tag ++ str_of ">" ++ body ++ str_of "</" ++ str_of tag).
  unfold element. change (str_of "<") with [60%N].
  change (str_of ">") with [62%N] at 2.
  cbn [app]. now rewrite <- !app_assoc.
Qed.

(** A one-line block that the block pattern recognises passes the
    paragraph step unchanged. *)
Lemma paragraph_step_block (tag : string) (body : str) :
  no_newline (element tag body) = true ->
  re.match_ re.I BLOCK_RE (element tag body) <> None ->
  paragraph_step (element tag body) = element tag body.
Proof.
  intros Hn Hm. unfold paragraph_step.
  rewrite (split_blank_id _ Hn). cbn [blocks_loop].
  destruct (element_angle tag body) as [mid E].
  assert (Hs : str_strip (element tag body) = element tag body).
  { unfold str_strip. apply strip_by_fixed. rewrite E. apply trimmed_angle. }
  rewrite Hs.
  destruct (element tag body) as [|c rest] eqn:Eel; [discriminate|].
  destruct (re.match_ re.I BLOCK_RE (c :: rest)); [|congruence].
  reflexivity.
Qed.

Lemma block_re_heading (d : char) (rest : str) :
  is_decimal d = true ->
  re.match_ re.I BLOCK_RE (60%N :: 104%N :: d :: rest) <> None.
Proof.
  intros Hd. unfold re.match_, re.match_here.
  cbn [BLOCK_RE re.seq re.alts re.run re.at_bol re.lit_match str_of
       list_ascii_of_string map].
  change (re.chr_eq re.I (N_of_ascii "<") 60%N) with true. cbv iota beta.
  change (re.chr_eq re.I (N_of_ascii "h") 104%N) with true. cbv iota beta.
  cbn [re.cset_match re.atom_match]. rewrite Hd. discriminate.
Qed.

Lemma heading_element_passes (tag : string) (d : char) (n : nat) (md : str) :
  str_of tag = [104%N; d] -> is_decimal d = true ->
  no_newline md = true -> absent COLON md = true ->
  paragraph_step (autolink_step (element tag (heading_text n md)))
  = element tag (heading_text n md).
Proof.
  intros Etag Hd Hn Hc.
  assert (Hbn : no_newline (heading_text n md) = true)
    by now apply no_newline_lstrip, no_newline_skipn.
  assert (Hbc : absent COLON (heading_text n md) = true)
    by now apply absent_lstrip, absent_skipn.
  assert (Hd' : (d =? COLON)%N = false /\ (d =? NL)%N = false).
  { unfold is_decimal, ascii_digit, in_range in Hd. bools.
    split; apply N.eqb_neq; unfold COLON, NL; lia. }
  destruct Hd' as [Hd1 Hd2].
  rewrite autolink_step_id.
  - apply paragraph_step_block.
    + unfold element. rewrite Etag.
      change no_newline with (absent NL).
      rewrite !absent_app. change (absent NL) with no_newline. rewrite Hbn.
      cbn. now rewrite Hd2.
    + unfold element. rewrite Etag. now apply block_re_heading.
  - unfold element. rewrite Etag. rewrite !absent_app, Hbc.
    cbn. now rewrite Hd1.
Qed.

(* ================================================================= *)
(** * Further properties of the program *)

(* ----------------------------------------------------------------- *)
(** *** The order of the posts *)

Lemma insert_sorted_perm (A : Type) (before : A -> A -> bool) (x : A)
  (l : list A) :
  Permutation (insert_sorted before x l) (x :: l).
Proof.
  induction l as [|y l IH]; simpl; [apply Permutation_refl|].
  destruct (before y x); [|apply Permutation_refl].
  apply perm_trans with (y :: x :: l); [now apply perm_skip | apply perm_swap].
Qed.

Lemma stable_sort_perm (A : Type) (before : A -> A -> bool) (l : list A) :
  Permutation (stable_sort before l) l.
Proof.
  induction l as [|x l IH]; simpl; [apply perm_nil|].
  apply perm_trans with (x :: stable_sort before l);
    [apply insert_sorted_perm | now apply perm_skip].
Qed.

Lemma insert_newest_sorted (x : entry) (l : list entry) :
  StronglySorted (fun p q => (e_mtime q <= e_mtime p)%N) l ->
  StronglySorted (fun p q => (e_mtime q <= e_mtime p)%N)
    (insert_sorted (fun p q => (e_mtime q <? e_mtime p)%N) x l).
Proof.
  induction 1 as [|y l Hl IH Hy]; simpl.
  - repeat constructor.
  - destruct (e_mtime x <? e_mtime y)%N eqn:E.
    + constructor; [exact IH|].
      apply N.ltb_lt in E.
      apply (Permutation_Forall (Permutation_sym (insert_sorted_perm _ _ x l))).
      constructor; [lia | exact Hy].
    + apply N.ltb_ge in E.
      constructor; [now constructor|].
      constructor; [exact E|].
      eapply Forall_impl; [|exact Hy]. cbv beta. intros z Hz. lia.
Qed.

(** Inserting keeps the files of one mtime in their order, the new one
    first. *)
Lemma insert_newest_stable (t : N) (x : entry) (l : list entry) :
  filter (fun p => (e_mtime p =? t)%N)
    (insert_sorted (fun p q => (e_mtime q <? e_mtime p)%N) x l)
  = filter (fun p => (e_mtime p =? t)%N) (x :: l).
Proof.
  induction l as [|y l IH]; [reflexivity|].
  cbn [insert_sorted]. destruct (e_mtime x <? e_mtime y)%N eqn:E;
    [|reflexivity].
  apply N.ltb_lt in E. cbn [filter] in *. rewrite IH.
  destruct (e_mtime x =? t)%N eqn:Ex, (e_mtime y =? t)%N eqn:Ey;
    try reflexivity.
  apply N.eqb_eq in Ex, Ey. lia.
Qed.

(** [main] takes the eligible files newest first: the order is a
    rearrangement of the files, no file comes before a newer one, and
    files of the same mtime keep the order of the directory listing. *)
Theorem newest_first_order (files : list entry) :
  Permutation (newest_first files) files /\
  StronglySorted (fun p q => (e_mtime q <= e_mtime p)%N) (newest_first files) /\
  (forall t, filter (fun p => (e_mtime p =? t)%N) (newest_first files)
             = filter (fun p => (e_mtime p =? t)%N) files).
Proof.
  unfold newest_first. split; [apply stable_sort_perm|]. split.
  - induction files as [|x l IH]; simpl; [constructor|].
    now apply insert_newest_sorted.
  - intros t. induction files as [|x l IH]; [reflexivity|].
    cbn [stable_sort fold_right]. rewrite insert_newest_stable.
    cbn [filter]. fold (stable_sort (fun p q => (e_mtime q <? e_mtime p)%N) l).
    now rewrite IH.
Qed.

(* ----------------------------------------------------------------- *)
(** *** The other branches of the template merger *)

Lemma str_in_false_suffix (needle a b : str) :
  str_in needle (a ++ b) = false -> str_in needle b = false.
Proof.
  intros H. destruct (str_in needle b) eqn:E; [|reflexivity].
  now rewrite (str_in_app_r needle a b E) in H.
Qed.

Lemma str_in_false_startswith (needle s : str) :
  str_in needle s = false -> startswith needle s = false.
Proof.
  destruct s; simpl; intros H; now apply orb_false_iff in H.
Qed.

Lemma region_match (prev : option char) (old post : str) :
  starts_within BLOGS_END old BLOGS_END = false ->
  re.match_here re.NOFLAGS REGION_RE prev
    (BLOGS_START ++ old ++ BLOGS_END ++ post)
  = Some ([], post).
Proof.
  intros Hold. unfold re.match_here. cbn [REGION_RE re.seq re.run].
  rewrite lit_match_app by reflexivity.
  apply star_lazy_first; [apply any_char_run | |].
  - intros a b E Hb.
    rewrite lit_match_fail; [reflexivity | reflexivity |].
    rewrite app_assoc, startswith_app_long.
    + now apply (starts_within_false _ _ _ Hold a b).
    + rewrite length_app. destruct b; [congruence|]. simpl. lia.
  - now rewrite lit_match_app by reflexivity.
Qed.

Lemma region_nomatch (prev : option char) (s : str) :
  startswith BLOGS_START s = false ->
  re.match_here re.NOFLAGS REGION_RE prev s = None.
Proof.
  intros H. unfold re.match_here. cbn [REGION_RE re.seq re.run].
  now rewrite lit_match_fail.
Qed.

(** Regeneration between the comment markers: in a template without the
    feed token, what stands between the first start marker and the first
    end marker after it is replaced by the feed between two line feeds;
    the markers and everything outside them stay.  (The feed holds no
    backslash.) *)
Theorem region_feed_replaced (pre old post feed : str) :
  str_in BLOGS_MARK (pre ++ BLOGS_START ++ old ++ BLOGS_END ++ post) = false ->
  starts_within BLOGS_START pre BLOGS_START = false ->
  starts_within BLOGS_END old BLOGS_END = false ->
  absent BACKSLASH feed = true ->
  insert_feed (pre ++ BLOGS_START ++ old ++ BLOGS_END ++ post) feed
  = Some (pre ++ BLOGS_START ++ [NL] ++ feed ++ [NL] ++ BLOGS_END ++ post).
Proof.
  intros Hmark Hpre Hold Hfeed. unfold insert_feed. rewrite Hmark.
  rewrite (str_in_mid BLOGS_START pre).
  replace (pre ++ BLOGS_START ++ old ++ BLOGS_END ++ post)
    with ((pre ++ BLOGS_START ++ old) ++ BLOGS_END ++ post) at 1
    by now rewrite <- !app_assoc.
  rewrite (str_in_mid BLOGS_END). cbn [andb].
  assert (Hb : existsb (N.eqb 92%N) feed = false).
  { apply not_true_is_false. intros H. apply existsb_exists in H as (c & Hc & E).
    apply N.eqb_eq in E. subst c. unfold absent in Hfeed.
    rewrite forallb_forall in Hfeed. specialize (Hfeed _ Hc).
    discriminate. }
  rewrite Hb. f_equal.
  unfold re.sub_first, re.search.
  rewrite search_from_pass.
  2:{ intros x y E Hy. apply region_nomatch.
      rewrite app_assoc, startswith_app_long.
      - now apply (starts_within_false _ _ _ Hpre x y).
      - rewrite length_app. destruct y; [congruence|]. simpl. lia. }
  assert (Hm := region_match (prev_after None pre) old post Hold).
  destruct (BLOGS_START ++ old ++ BLOGS_END ++ post) eqn:E; [discriminate|].
  unfold re.search_from. rewrite Hm. cbn [re.m_before re.m_groups re.m_after].
  rewrite app_nil_r, rev_involutive.
  now rewrite <- !app_assoc.
Qed.

Lemma region_feed_replaced_witness :
  insert_feed
    (str_of "<body>" ++ BLOGS_START ++ str_of "old feed" ++ BLOGS_END
     ++ str_of "</body>")
    (str_of "<article>new</article>")
  = Some (str_of "<body>" ++ BLOGS_START ++ [NL]
          ++ str_of "<article>new</article>" ++ [NL] ++ BLOGS_END
          ++ str_of "</body>").
Proof.
  apply (region_feed_replaced (str_of "<body>") (str_of "old feed")
           (str_of "</body>") (str_of "<article>new</article>")); reflexivity.
Defined.

(** The fallback on the closing tag of the main container: in a template
    without feed token and without the pair of comment markers, in which
    "</main>" occurs once, the feed and a line feed go right before it. *)
Theorem main_close_feed_inserted (a b feed : str) :
  str_in BLOGS_MARK (a ++ MAIN_CLOSE ++ b) = false ->
  str_in BLOGS_START (a ++ MAIN_CLOSE ++ b)
  && str_in BLOGS_END (a ++ MAIN_CLOSE ++ b) = false ->
  occurrences MAIN_CLOSE (a ++ MAIN_CLOSE ++ b) = 1 ->
  insert_feed (a ++ MAIN_CLOSE ++ b) feed
  = Some (a ++ feed ++ [NL] ++ MAIN_CLOSE ++ b).
Proof.
  intros Hmark Hregion Hocc. unfold insert_feed. rewrite Hmark, Hregion.
  change (str_of "</main>") with MAIN_CLOSE.
  rewrite (str_in_mid MAIN_CLOSE a b).
  rewrite (replace_unique MAIN_CLOSE (feed ++ [NL] ++ MAIN_CLOSE) a b
             ltac:(discriminate) Hocc).
  now rewrite <- !app_assoc.
Qed.

Lemma main_close_feed_inserted_witness :
  insert_feed (str_of "<main><h1>Blog</h1>" ++ MAIN_CLOSE ++ str_of "<footer>")
    (str_of "<article>x</article>")
  = Some (str_of "<main><h1>Blog</h1>" ++ str_of "<article>x</article>" ++ [NL]
          ++ MAIN_CLOSE ++ str_of "<footer>").
Proof.
  apply (main_close_feed_inserted (str_of "<main><h1>Blog</h1>")
           (str_of "<footer>") (str_of "<article>x</article>")); reflexivity.
Defined.

(** The contents are looked for in the document that already has the
    feed: a contents token inside the feed is replaced like one of the
    template. *)
Theorem contents_token_in_feed (a b f1 f2 contents : str) :
  occurrences BLOGS_MARK (a ++ BLOGS_MARK ++ b) = 1 ->
  occurrences CONTENTS_MARK (a ++ f1 ++ CONTENTS_MARK ++ f2 ++ b) = 1 ->
  merge (a ++ BLOGS_MARK ++ b) (f1 ++ CONTENTS_MARK ++ f2) contents
  = Some (a ++ f1 ++ contents ++ f2 ++ b).
Proof.
  intros H1 H2. unfold merge.
  rewrite (insert_feed_marker _ _ (str_in_mid BLOGS_MARK a b)).
  rewrite (replace_unique _ (f1 ++ CONTENTS_MARK ++ f2) a b
             BLOGS_MARK_nonempty H1).
  replace (a ++ (f1 ++ CONTENTS_MARK ++ f2) ++ b)
    with ((a ++ f1) ++ CONTENTS_MARK ++ (f2 ++ b))
    by now rewrite <- !app_assoc.
  rewrite (insert_contents_marker _ _ (str_in_mid CONTENTS_MARK _ _)).
  rewrite (replace_unique _ contents (a ++ f1) (f2 ++ b) CONTENTS_MARK_nonempty).
  - now rewrite <- !app_assoc.
  - now rewrite <- !app_assoc.
Qed.

Lemma contents_token_in_feed_witness :
  merge (str_of "<main>" ++ BLOGS_MARK ++ str_of "</main>")
    (str_of "<p>use " ++ CONTENTS_MARK ++ str_of " here</p>") (str_of "TOC")
  = Some (str_of "<main>" ++ str_of "<p>use " ++ str_of "TOC"
          ++ str_of " here</p>" ++ str_of "</main>").
Proof.
  apply (contents_token_in_feed (str_of "<main>") (str_of "</main>")
           (str_of "<p>use ") (str_of " here</p>") (str_of "TOC"));
    reflexivity.
Defined.

Lemma star_lazy_none (fl : re.flags) (R : Type) (cs : re.cset)
  (k : option char -> str -> option R) (s : str) (prev : option char) :
  (forall p a b, s = a ++ b -> k p b = None) ->
  re.star_lazy fl cs k prev s = None.
Proof.
  revert prev; induction s as [|c s IH]; intros prev H.
  - simpl. now rewrite (H prev [] [] eq_refl).
  - cbn [re.star_lazy]. rewrite (H prev [] (c :: s) eq_refl).
    destruct (re.cset_match fl cs c); [|reflexivity].
    apply IH. intros p a b E. apply (H p (c :: a) b). now rewrite E.
Qed.

Lemma lit_match_suffix (fl : re.flags) (l : str) (prev p' : option char)
  (s s' : str) :
  re.lit_match fl l prev s = Some (p', s') -> exists a, s = a ++ s'.
Proof.
  revert prev s; induction l as [|x l IH]; intros prev s H; simpl in H.
  - injection H as _ ->. now exists [].
  - destruct s as [|c s]; [discriminate|].
    destruct (re.chr_eq fl x c); [|discriminate].
    destruct (IH _ _ H) as [a ->]. now exists (c :: a).
Qed.

(** The navigation pattern needs a "</nav>" to match. *)
Lemma nav_needs_close (prev : option char) (y : str) :
  str_in NAV_CLOSE y = false ->
  re.match_here re.NOFLAGS NAV_RE prev y = None.
Proof.
  intros H. unfold re.match_here. cbn [NAV_RE re.seq re.run].
  destruct (re.lit_match re.NOFLAGS (str_of "<nav") prev y) as [[p1 s1]|] eqn:E1;
    [|reflexivity].
  destruct (lit_match_suffix _ _ _ _ _ _ E1) as [a1 ->].
  apply str_in_false_suffix in H.
  destruct (re.at_wordb p1 s1); [|reflexivity].
  apply star_greedy_none. intros p a b ->.
  apply str_in_false_suffix in H.
  destruct (re.lit_match re.NOFLAGS (str_of ">") p b) as [[p2 s2]|] eqn:E2;
    [|reflexivity].
  destruct (lit_match_suffix _ _ _ _ _ _ E2) as [a2 ->].
  apply str_in_false_suffix in H.
  apply star_lazy_none. intros p3 a3 b3 ->.
  apply str_in_false_suffix in H.
  change (str_of "</nav>") with NAV_CLOSE.
  now rewrite (lit_match_fail re.NOFLAGS NAV_CLOSE p3 b3 eq_refl
                 (str_in_false_startswith _ _ H)).
Qed.

(** A document that has "<nav" and "</nav>" but no "</nav>" after its
    first "<nav" takes the navigation branch, where the pattern finds
    nothing: the document is returned as it is and the contents string is
    not inserted anywhere. *)
Theorem nav_without_close_drops_contents (pre tail contents : str) :
  str_in CONTENTS_MARK (pre ++ tail) = false ->
  str_in NAV_OPEN (pre ++ tail) = true ->
  str_in NAV_CLOSE (pre ++ tail) = true ->
  starts_within NAV_OPEN pre tail = false ->
  str_in NAV_CLOSE tail = false ->
  insert_contents (pre ++ tail) contents = pre ++ tail.
Proof.
  intros Hmark Hopen Hclose Hpre Htail. unfold insert_contents.
  rewrite Hmark.
  change (str_of "<nav") with NAV_OPEN. change (str_of "</nav>") with NAV_CLOSE.
  rewrite Hopen, Hclose. cbn [andb].
  unfold re.sub_first, re.search.
  rewrite search_from_pass.
  2:{ intros x y E Hy. apply nav_nomatch.
      now apply (starts_within_false _ _ _ Hpre x y). }
  assert (Hnone : forall p before s, str_in NAV_CLOSE s = false ->
            re.search_from re.NOFLAGS NAV_RE p before s = None).
  { intros p before s. revert p before.
    induction s as [|c s IH]; intros p before Hs.
    - cbn [re.search_from]. now rewrite (nav_needs_close p [] Hs).
    - cbn [re.search_from]. rewrite (nav_needs_close p (c :: s) Hs).
      apply IH. now apply (str_in_false_suffix NAV_CLOSE [c] s). }
  now rewrite (Hnone _ _ tail Htail).
Qed.

Lemma nav_without_close_drops_contents_witness :
  insert_contents (str_of "<p>see </nav> and " ++ str_of "<nav>menu")
    (str_of "<a href='#x'>- x</a>")
  = str_of "<p>see </nav> and " ++ str_of "<nav>menu".
Proof.
  apply (nav_without_close_drops_contents (str_of "<p>see </nav> and ")
           (str_of "<nav>menu") (str_of "<a href='#x'>- x</a>"));
    reflexivity.
Defined.

(* ----------------------------------------------------------------- *)
(** *** [compile_markdown] on blank text, and the shape of its result *)

Lemma space_absent (x : char) (s : str) :
  is_space x = false -> forallb is_space s = true -> absent x s = true.
Proof.
  intros Hx Hs. unfold absent. rewrite forallb_forall in *.
  intros c Hc. apply negb_true_iff. apply N.eqb_neq. intros ->.
  specialize (Hs x Hc). congruence.
Qed.

Lemma forallb_replace_from (P : char -> bool) (old new s : str) (n : nat) :
  forallb P new = true -> forallb P s = true ->
  forallb P (replace_from old new n s) = true.
Proof.
  intros Hnew. revert n; induction s as [|c s IH]; intros n Hs; [reflexivity|].
  simpl in Hs. apply andb_true_iff in Hs as [Hc Hs].
  cbn [replace_from]. destruct n as [|n]; [|now apply IH].
  destruct (startswith old (c :: s)).
  - rewrite forallb_app, Hnew. now apply IH.
  - simpl. rewrite Hc. now apply IH.
Qed.

Lemma forallb_normalize (P : char -> bool) (md : str) :
  P NL = true -> forallb P md = true -> forallb P (normalize md) = true.
Proof.
  intros Hnl H. unfold normalize, str_replace.
  apply forallb_replace_from; [simpl; now rewrite Hnl|].
  apply forallb_replace_from; [simpl; now rewrite Hnl | exact H].
Qed.

Lemma startswith_absent (x : char) (l s : str) :
  absent x s = true -> startswith (x :: l) s = false.
Proof.
  destruct s as [|c s]; [reflexivity|]. intros H.
  simpl in H. apply andb_true_iff in H as [Hc _].
  apply negb_true_iff in Hc. rewrite N.eqb_sym in Hc.
  cbn [startswith]. now rewrite Hc.
Qed.

(** Without backtick there is no fence. *)
Lemma fence_step_no_backtick (s : str) :
  absent 96%N s = true -> fence_step s = s.
Proof.
  intros H. apply sub_nowhere. intros prev x y E.
  apply fence_nomatch. apply (startswith_absent 96%N).
  apply (absent_suffix 96%N x). now rewrite <- E.
Qed.

(** Without hash mark there is no heading. *)
Lemma heading_sub_no_hash (h : string) (rest tag : string) (s : str) :
  absent HASH s = true ->
  heading_sub (String "#" rest) tag s = s.
Proof.
  intros H. unfold heading_sub. apply sub_nowhere. intros prev x y E.
  unfold re.match_here. cbn [heading_re re.seq re.run].
  change (str_of (String "#" rest)) with (HASH :: str_of rest).
  rewrite (lit_match_absent re.M eq_refl HASH).
  - now destruct (re.at_bol re.M prev).
  - apply (absent_suffix HASH x). now rewrite <- E.
Qed.

Lemma heading_step_no_hash (s : str) :
  absent HASH s = true -> heading_step s = s.
Proof.
  intros H. unfold heading_step.
  now rewrite !(heading_sub_no_hash "#" _ _ s H).
Qed.

(** Without the letter h there is no URL. *)
Lemma autolink_step_no_h (s : str) :
  absent 104%N s = true -> autolink_step s = s.
Proof.
  intros H. apply sub_nowhere. intros prev x y E.
  unfold re.match_here. cbn [URL_RE re.seq re.run re.Opt].
  change (str_of "http") with (104%N :: str_of "ttp").
  rewrite (lit_match_absent re.NOFLAGS eq_refl 104%N); [reflexivity|].
  apply (absent_suffix 104%N x). now rewrite <- E.
Qed.

(** The pieces of a split are made of characters of the text. *)
Lemma split_from_forallb (P : char -> bool) (fl : re.flags) (r : re.regex)
  (s : str) :
  forall prev n piece,
    forallb P s = true -> forallb P piece = true ->
    Forall (fun q => forallb P q = true) (re.split_from fl r prev n piece s).
Proof.
  induction s as [|c s IH]; intros prev n piece Hs Hp.
  - simpl. constructor; [now apply forallb_rev | constructor].
  - simpl in Hs. apply andb_true_iff in Hs as [Hc Hs].
    assert (Hcp : forallb P (c :: piece) = true) by (simpl; now rewrite Hc).
    cbn [re.split_from]. destruct n as [|n]; [|now apply IH].
    destruct (re.match_here fl r prev (c :: s)) as [[caps rest]|];
      [|now apply IH].
    destruct (length (c :: s) - length rest) as [|k]; [now apply IH|].
    constructor; [now apply forallb_rev | now apply IH].
Qed.

Lemma lstrip_all (p : char -> bool) (s : str) :
  forallb p s = true -> lstrip_by p s = [].
Proof.
  induction s as [|c s IH]; [reflexivity|]. simpl. intros H.
  apply andb_true_iff in H as [Hc H]. rewrite Hc. now apply IH.
Qed.

Lemma str_strip_blank (s : str) : forallb is_space s = true -> str_strip s = [].
Proof.
  intros H. unfold str_strip, strip_by, rstrip_by.
  now rewrite (lstrip_all is_space s H).
Qed.

Lemma blocks_loop_blank (parts out : list str) :
  Forall (fun q => forallb is_space q = true) parts ->
  blocks_loop parts out = out.
Proof.
  induction 1 as [|p parts Hp _ IH]; [reflexivity|].
  cbn [blocks_loop]. now rewrite (str_strip_blank p Hp).
Qed.

(** A text of whitespace only, the empty text included, compiles to the
    empty text: no paragraph is made for it. *)
Theorem compile_markdown_blank (md : str) :
  forallb is_space md = true -> compile_markdown md = [].
Proof.
  intros H. unfold compile_markdown.
  assert (Hn : forallb is_space (normalize md) = true)
    by now apply forallb_normalize.
  rewrite (fence_step_no_backtick _ (space_absent 96%N _ eq_refl Hn)).
  rewrite (heading_step_no_hash _ (space_absent HASH _ eq_refl Hn)).
  rewrite (autolink_step_no_h _ (space_absent 104%N _ eq_refl Hn)).
  unfold paragraph_step, re.split.
  rewrite blocks_loop_blank; [reflexivity|].
  now apply split_from_forallb.
Qed.

Lemma compile_markdown_blank_witness :
  compile_markdown (py " \r\n \n\n  ") = [].
Proof.
  apply (compile_markdown_blank (py " \r\n \n\n  ")). reflexivity.
Defined.

(* ----------------------------------------------------------------- *)
(** *** Paragraphs of plain text *)

Section SplitFacts.

Variable fl : re.flags.
Variable r : re.regex.

Lemma split_from_skip (m rest piece : str) (prev : option char) :
  re.split_from fl r prev (length m) piece (m ++ rest)
  = re.split_from fl r (prev_after prev m) 0 piece rest.
Proof.
  revert prev; induction m as [|c m IH]; intros prev; simpl; [reflexivity|].
  apply IH.
Qed.

Lemma split_from_match (m rest piece : str) (prev : option char)
  (caps : re.captures) :
  m <> [] ->
  re.match_here fl r prev (m ++ rest) = Some (caps, rest) ->
  re.split_from fl r prev 0 piece (m ++ rest)
  = rev piece :: re.split_from fl r (prev_after prev m) 0 [] rest.
Proof.
  intros Hm H. destruct m as [|c m]; [congruence|].
  change ((c :: m) ++ rest) with (c :: (m ++ rest)) in *.
  unfold re.split_from; fold re.split_from. rewrite H.
  replace (length (c :: m ++ rest) - length rest) with (S (length m))
    by (change (length (c :: m ++ rest)) with (S (length (m ++ rest)));
        rewrite length_app; lia).
  now rewrite split_from_skip.
Qed.

Lemma split_from_copy (a rest piece : str) (prev : option char) :
  (forall x y, a = x ++ y -> y <> [] ->
               re.match_here fl r (prev_after prev x) (y ++ rest) = None) ->
  re.split_from fl r prev 0 piece (a ++ rest)
  = re.split_from fl r (prev_after prev a) 0 (rev a ++ piece) rest.
Proof.
  revert prev piece; induction a as [|c a IH]; intros prev piece H;
    [reflexivity|].
  change ((c :: a) ++ rest) with (c :: (a ++ rest)).
  unfold re.split_from; fold re.split_from.
  pose proof (H [] (c :: a) eq_refl) as H0. cbn [prev_after app] in H0.
  rewrite H0 by discriminate.
  rewrite IH.
  - simpl. now rewrite <- app_assoc.
  - intros x y E Hy. apply (H (c :: x) y); [now rewrite E | exact Hy].
Qed.

End SplitFacts.

Lemma gap_closes_app (y tail : str) :
  forallb is_space y = false -> gap_closes (y ++ tail) = gap_closes y.
Proof.
  induction y as [|c y IH]; [discriminate|]. intros H.
  simpl in H. cbn [app gap_closes].
  destruct (is_space c); [|reflexivity].
  simpl in H. now rewrite (IH H).
Qed.

Lemma paragraph_break_at (x y : str) :
  paragraph_break (x ++ NL :: y) = false -> gap_closes y = false.
Proof.
  induction x as [|c x IH]; cbn [app paragraph_break]; intros H;
    apply orb_false_iff in H as [H1 H2].
  - now rewrite N.eqb_refl in H1.
  - now apply IH.
Qed.

Lemma head_ok_rev_tail (P : char -> bool) (x y : str) :
  head_ok P (rev (x ++ y)) = true -> y <> [] -> forallb P y = false.
Proof.
  intros H Hy. destruct (forallb P y) eqn:E; [|reflexivity].
  apply forallb_rev in E. rewrite rev_app_distr in H.
  destruct (rev y) as [|c ry] eqn:Er.
  - apply (f_equal (@rev char)) in Er. rewrite rev_involutive in Er.
    now subst y.
  - simpl in H, E. apply andb_true_iff in E as [Ec _].
    now rewrite Ec in H.
Qed.

(** The blank-line pattern after a line feed: it fails when no line feed
    closes the gap. *)
Lemma gap_star_none (R : Type) (k : option char -> str -> option R)
  (s : str) (prev : option char) :
  (forall p b, startswith [NL] b = false -> k p b = None) ->
  gap_closes s = false ->
  re.star_greedy re.NOFLAGS (re.One re.Sp) k prev s = None.
Proof.
  intros Hk. revert prev; induction s as [|c s IH]; intros prev H.
  - simpl. now apply Hk.
  - cbn [gap_closes] in H. apply orb_false_iff in H as [Hc H].
    assert (Hb : k prev (c :: s) = None).
    { apply Hk. cbn [startswith]. rewrite N.eqb_sym, Hc. reflexivity. }
    cbn [re.star_greedy]. change (re.cset_match re.NOFLAGS (re.One re.Sp) c)
      with (is_space c).
    destruct (is_space c); [|exact Hb].
    simpl in H. now rewrite (IH (Some c) H).
Qed.

Lemma blank_nomatch (prev : option char) (y : str) :
  match y with
  | c :: y' => (c =? NL)%N && gap_closes y'
  | [] => false
  end = false ->
  re.match_here re.NOFLAGS BLANK_RE prev y = None.
Proof.
  intros H. unfold re.match_here. cbn [BLANK_RE re.seq re.run].
  destruct y as [|c y]; [reflexivity|].
  cbn [re.lit_match]. change (re.chr_eq re.NOFLAGS NL c) with (NL =? c)%N.
  rewrite N.eqb_sym. destruct (c =? NL)%N; [|reflexivity].
  simpl in H. apply gap_star_none; [|exact H].
  intros p b Hb. destruct b as [|d b]; [reflexivity|].
  change (re.chr_eq re.NOFLAGS NL d) with (NL =? d)%N.
  cbn [startswith] in Hb. destruct (NL =? d)%N; [discriminate | reflexivity].
Qed.

Lemma paragraph_break_suffix (x y : str) :
  paragraph_break (x ++ y) = false ->
  match y with
  | c :: y' => (c =? NL)%N && gap_closes y'
  | [] => false
  end = false.
Proof.
  induction x as [|c x IH]; cbn [app]; intros H.
  - destruct y as [|d y]; [reflexivity|].
    cbn [paragraph_break] in H. now apply orb_false_iff in H.
  - cbn [paragraph_break] in H. apply orb_false_iff in H as [_ H]. now apply IH.
Qed.

(** The blank-line pattern at a separator of two line feeds before text. *)
Lemma blank_match (prev : option char) (c : char) (t : str) :
  is_space c = false ->
  re.match_here re.NOFLAGS BLANK_RE prev (NL :: NL :: c :: t)
  = Some ([], c :: t).
Proof.
  intros Hc. unfold re.match_here. cbn [BLANK_RE re.seq re.run re.lit_match].
  change (re.chr_eq re.NOFLAGS NL NL) with true. cbv iota.
  cbn [re.star_greedy].
  change (re.cset_match re.NOFLAGS (re.One re.Sp) NL) with true.
  change (re.cset_match re.NOFLAGS (re.One re.Sp) c) with (is_space c).
  rewrite Hc. cbv iota. cbn [re.lit_match].
  change (re.chr_eq re.NOFLAGS NL c) with (NL =? c)%N.
  destruct (NL =? c)%N eqn:E.
  - apply N.eqb_eq in E. subst c. discriminate.
  - change (re.chr_eq re.NOFLAGS NL NL) with true. reflexivity.
Qed.

Lemma plain_paragraph_facts (p : str) :
  plain_paragraph p = true ->
  (exists c t, p = c :: t /\ is_space c = false /\ (c =? 60)%N = false) /\
  trimmed is_space p = true /\ paragraph_break p = false.
Proof.
  unfold plain_paragraph. intros H.
  apply andb_true_iff in H as [H H4]. apply andb_true_iff in H as [H H3].
  apply andb_true_iff in H as [H1 H2].
  apply negb_true_iff in H3, H4.
  repeat split; try assumption.
  destruct p as [|c t]; [discriminate|]. exists c, t.
  unfold trimmed in H2. apply andb_true_iff in H2 as [Hh _].
  simpl in Hh. apply negb_true_iff in Hh.
  repeat split; [exact Hh|].
  cbn [startswith str_of list_ascii_of_string map] in H4.
  change (N_of_ascii "<") with 60%N in H4. rewrite N.eqb_sym.
  destruct (60 =? c)%N; [discriminate | reflexivity].
Qed.

(** Paragraphs of plain text joined by one empty line are what the split
    at blank lines gives back. *)
Lemma split_paragraphs (ps : list str) (prev : option char) :
  ps <> [] -> Forall (fun p => plain_paragraph p = true) ps ->
  re.split_from re.NOFLAGS BLANK_RE prev 0 [] (str_join [NL; NL] ps) = ps.
Proof.
  intros Hne Hall. revert prev.
  induction Hall as [|p ps Hp Hall IH]; intros prev; [congruence|].
  destruct (plain_paragraph_facts p Hp) as (_ & Htr & Hbr).
  destruct ps as [|p2 ps].
  - cbn [str_join]. rewrite split_from_nowhere; [reflexivity|].
    intros q x y E. apply blank_nomatch.
    apply (paragraph_break_suffix x). now rewrite <- E.
  - rewrite str_join_cons.
    inversion Hall as [|? ? Hp2 _]; subst.
    destruct (plain_paragraph_facts p2 Hp2) as ((c & t & E2 & Hc & _) & _ & _).
    rewrite split_from_copy.
    + assert (Ej : exists t', str_join [NL; NL] (p2 :: ps) = c :: t').
      { subst p2. destruct ps; [now exists t|].
        rewrite str_join_cons. now eexists. }
      destruct Ej as [t' Ej].
      rewrite (split_from_match re.NOFLAGS BLANK_RE [NL; NL] _ _ _ []);
        [|discriminate|].
      * rewrite app_nil_r, rev_involutive. f_equal.
        apply IH. discriminate.
      * rewrite Ej. now apply blank_match.
    + intros x y E Hy. apply blank_nomatch.
      destruct y as [|d y]; [congruence|]. cbn [app].
      destruct (d =? NL)%N eqn:Ed; [|reflexivity].
      apply N.eqb_eq in Ed. subst d. cbn [andb].
      unfold trimmed in Htr. apply andb_true_iff in Htr as [_ Hr].
      rewrite E in Hr, Hbr.
      pose proof (head_ok_rev_tail is_space x (NL :: y) Hr) as Hsp.
      rewrite gap_closes_app.
      * now apply (paragraph_break_at x).
      * apply Hsp. discriminate.
Qed.

Lemma simple_lower_lt (c : char) :
  (simple_lower 60%N =? simple_lower c)%N = true -> c = 60%N.
Proof.
  change (simple_lower 60%N) with 60%N. unfold simple_lower.
  intros H.
  destruct (ascii_upper c) eqn:E1;
    [|destruct (in_range 192 222 c && negb (c =? 215)%N) eqn:E2;
      [|destruct (c =? 304)%N eqn:E3]];
    apply N.eqb_eq in H; unfold ascii_upper, in_range in *.
  - bools. lia.
  - bools. lia.
  - discriminate.
  - now symmetry.
Qed.

(** The block pattern needs a "<" in front. *)
Lemma block_re_needs_lt (p : str) :
  startswith (str_of "<") p = false -> re.match_ re.I BLOCK_RE p = None.
Proof.
  intros H. unfold re.match_, re.match_here.
  cbn [BLOCK_RE re.seq re.run re.at_bol].
  change (str_of "<") with [60%N] in *.
  destruct p as [|c p]; [reflexivity|].
  cbn [re.lit_match]. unfold re.chr_eq. cbn [re.IGNORECASE re.I].
  destruct (simple_lower 60%N =? simple_lower c)%N eqn:E; [|reflexivity].
  apply simple_lower_lt in E. subst c. discriminate.
Qed.

Lemma blocks_loop_plain (ps out : list str) :
  Forall (fun p => plain_paragraph p = true) ps ->
  blocks_loop ps out = out ++ map paragraph_of ps.
Proof.
  intros Hall. revert out.
  induction Hall as [|p ps Hp _ IH]; intros out.
  - simpl. now rewrite app_nil_r.
  - destruct (plain_paragraph_facts p Hp) as ((c & t & E & _ & Hlt) & Htr & _).
    cbn [blocks_loop]. unfold str_strip. rewrite (strip_by_fixed _ p Htr).
    rewrite block_re_needs_lt.
    + rewrite E at 1. rewrite IH. cbn [map]. unfold paragraph_of.
      now rewrite <- app_assoc.
    + rewrite E. cbn [startswith str_of list_ascii_of_string map].
      change (N_of_ascii "<") with 60%N. rewrite N.eqb_sym, Hlt. reflexivity.
Qed.

(** Without three backticks in a row there is no fence. *)
Lemma fence_step_none (s : str) : str_in FENCE s = false -> fence_step s = s.
Proof.
  intros H. apply sub_nowhere. intros prev x y E.
  apply fence_nomatch. apply str_in_false_startswith.
  apply (str_in_false_suffix FENCE x). now rewrite <- E.
Qed.

(** Without "://" there is no URL. *)
Lemma autolink_step_none (s : str) :
  str_in (str_of "://") s = false -> autolink_step s = s.
Proof.
  intros H. apply sub_nowhere. intros prev x y E.
  assert (Hy : str_in (str_of "://") y = false)
    by (apply (str_in_false_suffix _ x); now rewrite <- E).
  unfold re.match_here. cbn [URL_RE re.seq re.run re.Opt].
  destruct (re.lit_match re.NOFLAGS (str_of "http") prev y) as [[p' s']|] eqn:El;
    [|reflexivity].
  destruct (lit_match_suffix _ _ _ _ _ _ El) as [a Ea].
  assert (Hs' : str_in (str_of "://") s' = false)
    by (apply (str_in_false_suffix _ a); now rewrite <- Ea).
  destruct (re.lit_match re.NOFLAGS (str_of "s") p' s') as [[p2 s2]|] eqn:E2.
  - destruct (lit_match_suffix _ _ _ _ _ _ E2) as [a2 Ea2].
    assert (Hs2 : str_in (str_of "://") s2 = false)
      by (apply (str_in_false_suffix _ a2); now rewrite <- Ea2).
    rewrite (lit_match_fail re.NOFLAGS (str_of "://") p2 s2 eq_refl
               (str_in_false_startswith _ _ Hs2)).
    now rewrite (lit_match_fail re.NOFLAGS (str_of "://") p' s' eq_refl
                   (str_in_false_startswith _ _ Hs')).
  - now rewrite (lit_match_fail re.NOFLAGS (str_of "://") p' s' eq_refl
                   (str_in_false_startswith _ _ Hs')).
Qed.

Lemma heading_line_plain (l : str) :
  startswith (str_of "#") l = false -> heading_line l = l /\ bare_heading l = false.
Proof.
  intros H. unfold heading_line, bare_heading, bare.
  assert (H2 : startswith (str_of "##") l = false).
  { destruct l as [|c l]; [reflexivity|].
    cbn [startswith str_of list_ascii_of_string map] in *.
    destruct (N_of_ascii "#" =? c)%N; [discriminate | reflexivity]. }
  assert (H3 : startswith (str_of "###") l = false).
  { destruct l as [|c l]; [reflexivity|].
    cbn [startswith str_of list_ascii_of_string map] in *.
    destruct (N_of_ascii "#" =? c)%N; [discriminate | reflexivity]. }
  now rewrite H, H2, H3.
Qed.

(** Where no line begins with a hash mark, there is no heading. *)
Lemma heading_step_none (s : str) :
  forallb (fun l => negb (startswith (str_of "#") l)) (lines_of s) = true ->
  heading_step s = s.
Proof.
  intros H. pose proof (Forall_lines _ s H) as Hall.
  rewrite <- (lines_of_join s) at 1.
  rewrite heading_step_lines.
  - rewrite <- (lines_of_join s) at 2. f_equal.
    rewrite <- (map_id (lines_of s)) at 2.
    apply map_ext_in. intros l Hl. rewrite Forall_forall in Hall.
    destruct (Hall l Hl) as [_ Hs]. apply negb_true_iff in Hs.
    now destruct (heading_line_plain l Hs).
  - apply lines_of_nonempty.
  - eapply Forall_impl; [|exact Hall]. intros l [Hn Hs].
    apply negb_true_iff in Hs. split; [exact Hn|].
    now destruct (heading_line_plain l Hs).
Qed.

(** A text made of paragraphs of plain text, one empty line between them,
    in which there is no carriage return, no fence of three backticks, no
    line that begins with a hash mark and no "://": every paragraph
    becomes one paragraph element, its line feeds becoming "<br>", and the
    elements are joined by one empty line, in the order of the text. *)
Theorem paragraphs_compiled (ps : list str) :
  forallb plain_paragraph ps = true ->
  absent CR (str_join [NL; NL] ps) = true ->
  str_in FENCE (str_join [NL; NL] ps) = false ->
  forallb (fun l => negb (startswith (str_of "#") l))
    (lines_of (str_join [NL; NL] ps)) = true ->
  str_in (str_of "://") (str_join [NL; NL] ps) = false ->
  compile_markdown (str_join [NL; NL] ps)
  = str_join [NL; NL] (map paragraph_of ps).
Proof.
  intros Hps Hcr Hf Hh Hu. unfold compile_markdown.
  rewrite (normalize_id _ Hcr), (fence_step_none _ Hf),
    (heading_step_none _ Hh), (autolink_step_none _ Hu).
  destruct ps as [|p ps]; [reflexivity|].
  assert (Hall : Forall (fun p => plain_paragraph p = true) (p :: ps)).
  { apply Forall_forall. intros q Hq. rewrite forallb_forall in Hps.
    now apply Hps. }
  unfold paragraph_step, re.split.
  rewrite split_paragraphs; [|discriminate|exact Hall].
  now rewrite blocks_loop_plain.
Qed.

Lemma paragraphs_compiled_witness :
  compile_markdown
    (str_join [NL; NL] [py "One line\nand a second"; py "C# and a/b"])
  = str_join [NL; NL]
      (map paragraph_of [py "One line\nand a second"; py "C# and a/b"]).
Proof.
  apply (paragraphs_compiled [py "One line\nand a second"; py "C# and a/b"]);
    reflexivity.
Defined.

(* ----------------------------------------------------------------- *)
(** *** A one-line text with a first-level heading *)

Lemma title_on_line_facts (l t : str) :
  title_on_line "#" l = Some t ->
  startswith (str_of "#") l = true /\ startswith (str_of "##") l = false /\
  startswith (str_of "###") l = false /\ heading_text 1 l = t /\ t <> [].
Proof.
  unfold title_on_line. destruct (startswith (str_of "#") l) eqn:Hs;
    [|discriminate].
  cbn [String.length]. intros H.
  destruct l as [|h l]; [discriminate|].
  cbn [skipn] in H. destruct l as [|c l]; [discriminate|].
  destruct (is_space c) eqn:Hc; [|discriminate].
  assert (Hh : (N_of_ascii "#" =? c)%N = false).
  { destruct (N_of_ascii "#" =? c)%N eqn:E; [|reflexivity].
    apply N.eqb_eq in E. subst c. discriminate. }
  destruct (heading_text 1 (h :: c :: l)) as [|d t'] eqn:Et; [discriminate|].
  injection H as <-.
  cbn [startswith str_of list_ascii_of_string map] in *.
  rewrite Hh. destruct (N_of_ascii "#" =? h)%N; [|discriminate].
  repeat split; try reflexivity. discriminate.
Qed.

(** A text of one line that is a hash mark, whitespace and a text, without
    carriage return or colon: [extract_title] returns the text without the
    whitespace at its end, and [compile_markdown] returns the "h2" element
    of the text as it stands. *)
Theorem title_is_the_heading (md fallback t : str) :
  title_on_line "#" md = Some t ->
  no_newline md = true -> absent CR md = true -> absent COLON md = true ->
  extract_title md fallback = str_strip t /\
  compile_markdown md = element "h2" t.
Proof.
  intros Ht Hn Hcr Hc.
  destruct (title_on_line_facts md t Ht) as (H1 & H2 & H3 & Etext & Hne).
  assert (Hb1 : bare "#" md = false).
  { unfold bare. rewrite H1. cbn [String.length andb]. rewrite Etext.
    now destruct t. }
  assert (Hb2 : bare "##" md = false) by (unfold bare; now rewrite H2).
  assert (Hb3 : bare "###" md = false) by (unfold bare; now rewrite H3).
  split.
  - change md with (str_join [NL] [md]) at 1.
    rewrite extract_title_lines; [|discriminate|].
    + cbn [first_hit]. now rewrite Ht.
    + constructor; [|constructor]. auto.
  - unfold compile_markdown.
    rewrite (normalize_id md Hcr), (fence_step_id md Hn).
    assert (Hh : heading_step md = heading_line md).
    { change md with (str_join [NL] [md]) at 1.
      rewrite heading_step_lines; [reflexivity | discriminate |].
      constructor; [|constructor]. split; [exact Hn|].
      unfold bare_heading. now rewrite Hb1, Hb2, Hb3. }
    rewrite Hh. unfold heading_line. rewrite H3, H2, H1, <- Etext.
    now apply (heading_element_passes "h2" 50%N).
Qed.

Lemma title_is_the_heading_witness :
  extract_title (py "#  My first post  ") (py "fallback")
  = str_strip (py "My first post  ") /\
  compile_markdown (py "#  My first post  ")
  = element "h2" (py "My first post  ").
Proof.
  apply (title_is_the_heading (py "#  My first post  ") (py "fallback")
           (py "My first post  ")); vm_compute; reflexivity.
Defined.

(* ----------------------------------------------------------------- *)
(** *** Line ends *)

Lemma replace_crlf (md : str) :
  absent CR md = true -> replace_from [CR; NL] [NL] 0 (crlf md) = md.
Proof.
  induction md as [|c md IH]; [reflexivity|]. intros H.
  simpl in H. apply andb_true_iff in H as [Hc H]. apply negb_true_iff in Hc.
  cbn [crlf flat_map]. fold (crlf md).
  destruct (c =? NL)%N eqn:En.
  - apply N.eqb_eq in En. subst c.
    change ([CR; NL] ++ crlf md) with (CR :: NL :: crlf md).
    cbn [replace_from startswith length Nat.sub].
    rewrite !N.eqb_refl. cbn [andb app]. now rewrite (IH H).
  - change ([c] ++ crlf md) with (c :: crlf md).
    cbn [replace_from startswith]. rewrite N.eqb_sym, Hc. cbn [andb].
    now rewrite (IH H).
Qed.

Lemma cr_only_head (s : str) : startswith [NL] (cr_only s) = false.
Proof.
  destruct s as [|c s]; [reflexivity|]. cbn [cr_only map startswith].
  destruct (c =? NL)%N eqn:E; [reflexivity|].
  now rewrite N.eqb_sym, E.
Qed.

Lemma replace_crlf_cr_only (md : str) :
  replace_from [CR; NL] [NL] 0 (cr_only md) = cr_only md.
Proof.
  induction md as [|c md IH]; [reflexivity|].
  cbn [cr_only map]. fold (cr_only md).
  cbn [replace_from].
  change (startswith [CR; NL] ((if (c =? NL)%N then CR else c) :: cr_only md))
    with ((CR =? (if (c =? NL)%N then CR else c))%N
          && startswith [NL] (cr_only md)).
  rewrite cr_only_head, andb_false_r. now rewrite IH.
Qed.

Lemma replace_cr_only (md : str) :
  absent CR md = true -> replace_from [CR] [NL] 0 (cr_only md) = md.
Proof.
  induction md as [|c md IH]; [reflexivity|]. intros H.
  simpl in H. apply andb_true_iff in H as [Hc H]. apply negb_true_iff in Hc.
  cbn [cr_only map]. fold (cr_only md).
  destruct (c =? NL)%N eqn:En.
  - apply N.eqb_eq in En. subst c.
    cbn [replace_from startswith length Nat.sub]. rewrite N.eqb_refl.
    cbn [andb app]. now rewrite (IH H).
  - cbn [replace_from startswith]. rewrite N.eqb_sym, Hc. cbn [andb].
    now rewrite (IH H).
Qed.

(** The line ends of the file do not matter: a text compiles to the same
    HTML with line feeds, with carriage return and line feed, and with
    carriage returns alone. *)
Theorem line_ends_do_not_matter (md : str) :
  absent CR md = true ->
  compile_markdown (crlf md) = compile_markdown md /\
  compile_markdown (cr_only md) = compile_markdown md.
Proof.
  intros H. unfold compile_markdown.
  assert (E0 : normalize md = md) by now apply normalize_id.
  assert (E1 : normalize (crlf md) = md).
  { unfold normalize, str_replace. rewrite (replace_crlf md H).
    apply replace_from_none. now apply occurrences_absent. }
  assert (E2 : normalize (cr_only md) = md).
  { unfold normalize, str_replace. rewrite replace_crlf_cr_only.
    now apply replace_cr_only. }
  now rewrite E0, E1, E2.
Qed.

Lemma line_ends_do_not_matter_witness :
  compile_markdown (crlf (py "# T\n\nline\nline"))
  = compile_markdown (py "# T\n\nline\nline") /\
  compile_markdown (cr_only (py "# T\n\nline\nline"))
  = compile_markdown (py "# T\n\nline\nline").
Proof.
  apply (line_ends_do_not_matter (py "# T\n\nline\nline")).
  vm_compute; reflexivity.
Defined.

(* ----------------------------------------------------------------- *)
(** *** The shape of the compiled text *)

Lemma head_ok_rev_app (P : char -> bool) (a j : str) :
  j <> [] -> head_ok P (rev (a ++ j)) = head_ok P (rev j).
Proof.
  intros Hj. rewrite rev_app_distr.
  destruct (rev j) as [|c rj] eqn:E; [|reflexivity].
  apply (f_equal (@rev char)) in E. rewrite rev_involutive in E. now subst j.
Qed.

Lemma block_ok_head (b : str) :
  block_ok b = true -> exists t, b = 60%N :: t.
Proof.
  unfold block_ok. intros H. apply andb_true_iff in H as [H _].
  destruct b as [|c t]; [discriminate|].
  cbn [startswith str_of list_ascii_of_string map] in H.
  change (N_of_ascii "<") with 60%N in H.
  apply andb_true_iff in H as [H _]. apply N.eqb_eq in H. subst c.
  now exists t.
Qed.

Lemma block_ok_join (bs : list str) :
  bs <> [] -> Forall (fun b => block_ok b = true) bs ->
  block_ok (str_join [NL; NL] bs) = true.
Proof.
  intros Hne Hall. induction Hall as [|b bs Hb Hall IH]; [congruence|].
  destruct bs as [|b2 bs]; [exact Hb|].
  rewrite str_join_cons.
  assert (Hj : block_ok (str_join [NL; NL] (b2 :: bs)) = true)
    by (apply IH; discriminate).
  destruct (block_ok_head b Hb) as [t ->].
  destruct (block_ok_head _ Hj) as [t2 Et2].
  unfold block_ok, trimmed in *.
  apply andb_true_iff in Hj as [_ Hj]. apply andb_true_iff in Hj as [_ Hj].
  rewrite app_assoc, head_ok_rev_app by (rewrite Et2; discriminate).
  now rewrite Hj.
Qed.

Lemma blocks_loop_ok (parts out : list str) :
  Forall (fun b => block_ok b = true) out ->
  Forall (fun b => block_ok b = true) (blocks_loop parts out).
Proof.
  revert out; induction parts as [|p parts IH]; intros out Hout; [exact Hout|].
  cbn [blocks_loop].
  destruct (str_strip p) as [|c t] eqn:Ep; [now apply IH|].
  destruct (re.match_ re.I BLOCK_RE (c :: t)) eqn:Em; apply IH;
    apply Forall_app; (split; [exact Hout|]); constructor; try constructor.
  - unfold block_ok. rewrite <- Ep. unfold str_strip at 2.
    rewrite strip_by_trimmed, andb_true_r. rewrite Ep.
    destruct (startswith (str_of "<") (c :: t)) eqn:Es; [reflexivity|].
    now rewrite (block_re_needs_lt _ Es) in Em.
  - unfold block_ok.
    change (str_of "<p>" ++ str_replace [NL] (str_of "<br>") (c :: t)
            ++ str_of "</p>")
      with (60%N :: (112%N :: 62%N
                     :: str_replace [NL] (str_of "<br>") (c :: t)
                     ++ str_of "</p>")).
    replace (112%N :: 62%N :: str_replace [NL] (str_of "<br>") (c :: t)
             ++ str_of "</p>")
      with ((112%N :: 62%N :: str_replace [NL] (str_of "<br>") (c :: t)
             ++ str_of "</p") ++ [62%N])
      by (cbn [app]; now rewrite <- app_assoc).
    now rewrite trimmed_angle.
Qed.

(** Whatever the text, what [compile_markdown] returns is empty, or it
    begins with "<" and has no whitespace at its ends. *)
Theorem compiled_text_shape (md : str) :
  compile_markdown md = [] \/ block_ok (compile_markdown md) = true.
Proof.
  unfold compile_markdown, paragraph_step.
  set (parts := re.split re.NOFLAGS BLANK_RE _).
  pose proof (blocks_loop_ok parts [] (Forall_nil _)) as H.
  destruct (blocks_loop parts []) as [|b bs] eqn:E; [now left|].
  right. apply block_ok_join; [discriminate | exact H].
Qed.

(* ----------------------------------------------------------------- *)
(** *** The alphabet of a slug *)

Lemma slug_clean_alphabet (c : char) :
  slug_clean c = true -> slug_alphabet c = true.
Proof.
  intros H.
  assert (Ha : is_ascii c = true) by (unfold slug_clean in H; now bools).
  pose proof (ascii_codes_all
                (fun c => implb (slug_clean c) (slug_alphabet c))
                eq_refl c Ha) as Hi.
  cbv beta in Hi. now rewrite H in Hi.
Qed.

Lemma absent_weaken (P : char -> bool) (x : char) (s : str) :
  P x = false -> forallb P s = true -> absent x s = true.
Proof.
  intros Hx H. unfold absent. rewrite forallb_forall in *. intros c Hc.
  apply negb_true_iff, N.eqb_neq. intros ->.
  specialize (H x Hc). congruence.
Qed.

Lemma slugify_alphabet_of (name : str) :
  forallb is_ascii name = true ->
  absent 60%N (slugify name) = true /\ absent 62%N (slugify name) = true.
Proof.
  intros Hx. destruct (slug_body_clean name Hx) as [Hc _].
  rewrite (slugify_collapse name).
  destruct (str_lower (strip_by is_hyphen (collapse false name)))
    as [|c t] eqn:E; [split; reflexivity|].
  assert (Hs : forallb slug_alphabet (c :: t) = true).
  { rewrite forallb_forall in *. intros d Hd.
    now apply slug_clean_alphabet, Hc. }
  split; apply (absent_weaken slug_alphabet); try exact Hs; reflexivity.
Qed.

(** The slug of an ASCII name is not empty, is made of lower-case letters,
    digits, underscores and hyphens, and neither begins nor ends with a
    hyphen. *)
Theorem slugify_ascii_shape (name : str) :
  forallb is_ascii name = true ->
  slugify name <> [] /\
  forallb slug_alphabet (slugify name) = true /\
  trimmed is_hyphen (slugify name) = true.
Proof.
  intros Hx. destruct (slug_body_clean name Hx) as [Hc Ht].
  rewrite (slugify_collapse name).
  destruct (str_lower (strip_by is_hyphen (collapse false name)))
    as [|c t] eqn:E.
  - repeat split; try reflexivity. discriminate.
  - repeat split; [discriminate | | exact Ht].
    rewrite forallb_forall in *. intros d Hd.
    now apply slug_clean_alphabet, Hc.
Qed.

Lemma slugify_ascii_shape_witness :
  slugify (str_of "--My First Post!.md") <> [] /\
  forallb slug_alphabet (slugify (str_of "--My First Post!.md")) = true /\
  trimmed is_hyphen (slugify (str_of "--My First Post!.md")) = true.
Proof.
  apply (slugify_ascii_shape (str_of "--My First Post!.md")).
  vm_compute; reflexivity.
Defined.

(* ----------------------------------------------------------------- *)
(** *** Escaped text *)

(** What [html.escape] returns holds no "<", no ">" and no quote of
    either kind. *)
Lemma html_escape_no_markup (s : str) :
  forallb (fun c => negb (markup_char c)) (html_escape s) = true.
Proof.
  induction s as [|c s IH]; [reflexivity|].
  unfold html_escape in *. cbn [flat_map]. rewrite forallb_app, IH, andb_true_r.
  unfold escape_char, markup_char.
  destruct (c =? 38)%N; [reflexivity|].
  destruct (c =? 60)%N eqn:E1; [reflexivity|].
  destruct (c =? 62)%N eqn:E2; [reflexivity|].
  destruct (c =? 34)%N eqn:E3; [reflexivity|].
  destruct (c =? 39)%N eqn:E4; [reflexivity|].
  cbn [forallb]. now rewrite E1, E2, E3, E4.
Qed.

Lemma occurrences_one_app (x : char) (a b : str) :
  occurrences [x] (a ++ b) = occurrences [x] a + occurrences [x] b.
Proof.
  induction a as [|c a IH].
  - simpl. destruct b; reflexivity.
  - cbn [app occurrences startswith]. rewrite IH. lia.
Qed.

Lemma forallb_firstn (P : char -> bool) (n : nat) (s : str) :
  forallb P s = true -> forallb P (firstn n s) = true.
Proof.
  revert s; induction n as [|n IH]; intros [|c s] H; try reflexivity.
  simpl in *. apply andb_true_iff in H as [Hc H]. rewrite Hc. now apply IH.
Qed.

Lemma stem_ascii (name : str) :
  forallb is_ascii name = true -> forallb is_ascii (stem name) = true.
Proof.
  intros H. unfold stem. destruct (last_dot name 0 None); [|exact H].
  now apply forallb_firstn.
Qed.

(** The contents entry of a post with an ASCII file name is one link,
    whatever the text of the post: it holds two "<" and two ">", those of
    its opening and its closing tag. *)
Theorem post_entry_is_one_link (p : entry) :
  forallb is_ascii (e_name p) = true ->
  occurrences (str_of "<") (post_entry p) = 2 /\
  occurrences (str_of ">") (post_entry p) = 2.
Proof.
  intros Ha. unfold post_entry, contents_entry, post_anchor.
  destruct (slugify_alphabet_of (stem (e_name p)) (stem_ascii _ Ha)) as [H1 H2].
  pose proof (html_escape_no_markup
                (extract_title (read_text_safe p) (stem (e_name p)))) as He.
  change (str_of "<") with [60%N]. change (str_of ">") with [62%N].
  rewrite !occurrences_one_app.
  rewrite !(occurrences_absent 60%N [] _ H1), !(occurrences_absent 62%N [] _ H2).
  rewrite (occurrences_absent 60%N [] _
             (absent_weaken (fun c => negb (markup_char c)) 60%N _ eq_refl He)).
  rewrite (occurrences_absent 62%N [] _
             (absent_weaken (fun c => negb (markup_char c)) 62%N _ eq_refl He)).
  split; reflexivity.
Qed.

Lemma post_entry_is_one_link_witness :
  occurrences (str_of "<")
    (post_entry (Entry (str_of "a.md") true 1 (py "# 1 < 2 <b>\n"))) = 2 /\
  occurrences (str_of ">")
    (post_entry (Entry (str_of "a.md") true 1 (py "# 1 < 2 <b>\n"))) = 2.
Proof.
  apply (post_entry_is_one_link
           (Entry (str_of "a.md") true 1 (py "# 1 < 2 <b>\n"))).
  vm_compute; reflexivity.
Defined.

(* ----------------------------------------------------------------- *)
(** *** What a substitution and a split leave in place *)




Section Keeps.

Variable fl : re.flags.
Variable r : re.regex.
Variable inside : char -> bool.

(** Every match is made of [inside] characters. *)
Hypothesis match_inside :
  forall prev u caps rest,
    re.match_here fl r prev u = Some (caps, rest) ->
    exists m, u = m ++ rest /\ forallb inside m = true.

Variable x : char.
Variable t : str.

Hypothesis outside : inside x = false.

(** No match starts in [x :: t]. *)
Hypothesis no_start :
  forall prev a b rest,
    x :: t = a ++ b -> b <> [] -> re.match_here fl r prev (b ++ rest) = None.




End Keeps.

(* ----------------------------------------------------------------- *)
(** *** Markup that the autolink and the paragraph step pass over *)



















(* ----------------------------------------------------------------- *)
(** *** Headings without whitespace, through the compiler *)







(* ----------------------------------------------------------------- *)
(** *** A run of the program as shipped *)

(** Whatever the directory and the template, a run of the program ends
    before [main] is entered: the tokenizer refuses line 117 at its
    first backslash, in column 54, so the module does not compile.  The
    run exits with status 1, prints nothing on standard output and
    writes no file. *)
Theorem program_never_runs (w : world) :
  run_program w = NotCompiled 117 54 /\
  exit_status (run_program w) = Some 1 /\
  printed (run_program w) = [] /\
  files_written (run_program w) = [].
Proof.
  unfold run_program. rewrite line_117_refused. repeat split.
Qed.
